(** * auto_argparser: a shallow embedding and its verified properties

    The development follows the two source modules

      - [brain_utils/string_utils.py]   (module [StringUtils] below)
      - [auto_argparser/auto_argparser.py]

    Python values are embedded as the inductive type [Value], type
    annotations as the tagged tree [TypeAnnotation], exceptions as the
    constructors of [PyError], and every function that can raise returns a
    [Result].  Python [str] is embedded as Rocq's [string]; a character is
    read as the code point U+0000..U+00FF it denotes (code points above
    U+00FF lie outside the model). *)

From Stdlib Require Import ZArith NArith Ascii String List Bool Lia.
From Stdlib Require Import Floats.SpecFloat.
From stdpp Require Import base option list gmap strings.

Import ListNotations.
Set Warnings "-register-all".
Local Open Scope string_scope.
Local Open Scope list_scope.

(** * Python's built-in string operations *)

Module PyStr.

(** A Python [str] of length one. *)
Definition chr (c : ascii) : string := String c EmptyString.

(** The double quote, as a string. *)
Definition dquote : string := chr "034".

(** [c in chars] for a one-character [c]. *)
Fixpoint mem (c : ascii) (chars : string) : bool :=
  match chars with
  | EmptyString => false
  | String d rest => if Ascii.eqb c d then true else mem c rest
  end.

(** [s.startswith(p)] *)
Definition startswith (s p : string) : bool := String.prefix p s.

(** [s.lstrip(chars)] *)
Fixpoint lstrip (chars s : string) : string :=
  match s with
  | EmptyString => EmptyString
  | String c rest => if mem c chars then lstrip chars rest else s
  end.

(** [s.rstrip(chars)] *)
Fixpoint rstrip (chars s : string) : string :=
  match s with
  | EmptyString => EmptyString
  | String c rest =>
      match rstrip chars rest with
      | EmptyString => if mem c chars then EmptyString else chr c
      | kept => String c kept
      end
  end.

(** [s.strip(chars)] *)
Definition strip (chars s : string) : string := rstrip chars (lstrip chars s).

(** [s[n:]] for [0 <= n]. *)
Fixpoint drop (n : nat) (s : string) : string :=
  match n, s with
  | O, _ => s
  | S _, EmptyString => EmptyString
  | S k, String _ rest => drop k rest
  end.

(** [all(p(c) for c in s)] *)
Fixpoint all (p : ascii -> bool) (s : string) : bool :=
  match s with
  | EmptyString => true
  | String c rest => p c && all p rest
  end.

Fixpoint map (f : ascii -> ascii) (s : string) : string :=
  match s with
  | EmptyString => EmptyString
  | String c rest => String (f c) (map f rest)
  end.

Definition code (c : ascii) : N := N_of_ascii c.

Definition between (lo hi : N) (c : ascii) : bool :=
  ((lo <=? code c) && (code c <=? hi))%N.

Definition is_digit : ascii -> bool := between 48 57.

(** [c.lower()]: the cased letters below U+0100 are A-Z and U+00C0-U+00DE
    without the multiplication sign U+00D7; each maps 32 places up. *)
Definition lower_char (c : ascii) : ascii :=
  if between 65 90 c || (between 192 222 c && negb (code c =? 215)%N)
  then ascii_of_N (code c + 32) else c.

(** [s.lower()] *)
Definition lower : string -> string := map lower_char.

(** The characters below U+0100 with a numeric value: the digits, the
    superscripts one, two, three and the three vulgar fractions. *)
Definition is_numeric_char (c : ascii) : bool :=
  is_digit c
  || (code c =? 178)%N || (code c =? 179)%N || (code c =? 185)%N
  || between 188 190 c.

(** [s.isnumeric()] is false on the empty string. *)
Definition isnumeric (s : string) : bool :=
  match s with
  | EmptyString => false
  | _ => all is_numeric_char s
  end.

(** Python's white space below U+0100, as [int], [float] and the
    argument-less [strip] see it. *)
Definition is_space (c : ascii) : bool :=
  between 9 13 c || between 28 32 c || (code c =? 133)%N || (code c =? 160)%N.

Fixpoint lstrip_space (s : string) : string :=
  match s with
  | EmptyString => EmptyString
  | String c rest => if is_space c then lstrip_space rest else s
  end.

Fixpoint rstrip_space (s : string) : string :=
  match s with
  | EmptyString => EmptyString
  | String c rest =>
      match rstrip_space rest with
      | EmptyString => if is_space c then EmptyString else chr c
      | kept => String c kept
      end
  end.

Definition strip_space (s : string) : string := rstrip_space (lstrip_space s).

(** [s.split(sep)] for a one-character separator: at least one part. *)
Fixpoint split (sep : ascii) (s : string) : list string :=
  match s with
  | EmptyString => [EmptyString]
  | String c rest =>
      if Ascii.eqb c sep then EmptyString :: split sep rest
      else match split sep rest with
           | [] => [chr c]
           | part :: parts => String c part :: parts
           end
  end.

(** [s.split(sep, 1)] for a one-character separator that occurs in [s]:
    the text before the first separator and the text after it. *)
Fixpoint partition (sep : ascii) (s : string) : option (string * string) :=
  match s with
  | EmptyString => None
  | String c rest =>
      if Ascii.eqb c sep then Some (EmptyString, rest)
      else match partition sep rest with
           | Some (before, after) => Some (String c before, after)
           | None => None
           end
  end.

(** [sep.join(parts)] *)
Fixpoint join (sep : string) (parts : list string) : string :=
  match parts with
  | [] => EmptyString
  | [p] => p
  | p :: rest => p +:+ sep +:+ join sep rest
  end.

(** [needle in s] *)
Fixpoint contains (needle s : string) : bool :=
  String.prefix needle s
  || match s with
     | EmptyString => false
     | String _ rest => contains needle rest
     end.

End PyStr.

(** * Values, annotations and exceptions *)

(** Python objects.  [VNoValue] is the class object [NoValue] that the
    module uses as its "nothing was given" placeholder; it is distinct from
    [VNone].  A [float] is an IEEE-754 binary64 number.  An [OrderedDict] is
    the list of its items in insertion order. *)
Inductive Value : Type :=
| VNoValue
| VNone
| VBool (b : bool)
| VInt (z : Z)
| VFloat (f : spec_float)
| VStr (s : string)
| VList (items : list Value)
| VSet (items : list Value)
| VTuple (items : list Value)
| VDict (items : list (Value * Value))
| VIntEnum (cls : string) (z : Z)
| VRecord (cls : string) (fields : list (string * Value))
| VObject (cls : string) (state : string).

(** Type annotations, by shape.  [Optional[T]] is [TUnion [T; TNoneType]].
    [TAttrs cls fields] is a class built by [attrs] with its fields in
    declaration order: name, annotation if any, default if any.  [TClass] is
    any other class or annotation. *)
Inductive TypeAnnotation : Type :=
| TInt | TFloat | TStr | TBool | TNoneType | TAny | TDatetime
| TIntEnum (cls : string)
| TMapping (key val : TypeAnnotation)
| TDict (key val : TypeAnnotation)
| TSequence (item : TypeAnnotation)
| TList (item : TypeAnnotation)
| TSet (item : TypeAnnotation)
| TTuple (items : list TypeAnnotation)
| TUnion (arms : list TypeAnnotation)
| TAttrs (cls : string)
         (fields : list (string * option TypeAnnotation * option Value))
| TClass (cls : string).

(** The pieces of a formatted message: its literal text and interpolated
    strings, and the interpolated objects that are not strings. *)
Inductive Fragment : Type :=
| FText (s : string)
| FInt (z : Z)
| FStrs (l : list string)
| FTuples (l : list (list string))
| FTypes (l : list TypeAnnotation)
| FNames (l : list string)
| FExit (code : Z).

Inductive PyError : Type :=
| AssertionError (msg : list Fragment)
| AutoArgParserError (msg : list Fragment)
| ArgumentTypeError (msg : string)
| ArgumentError (msg : string)
| ValueError (msg : string)
| TypeError (msg : string)
| KeyError (key : string)
| UnequalIterablesError
| RecursionError
| SystemExit (code : Z) (output : string)
| OtherError (cls : string) (msg : string).

Inductive Result (A : Type) : Type :=
| Ok (a : A)
| Raise (e : PyError).
Arguments Ok {A} a.
Arguments Raise {A} e.

#[global] Instance result_ret : MRet Result := fun A a => Ok a.
#[global] Instance result_bind : MBind Result :=
  fun A B k r => match r with Ok a => k a | Raise e => Raise e end.

#[global] Instance result_fmap : FMap Result :=
  fun A B f r => match r with Ok a => Ok (f a) | Raise e => Raise e end.

Definition is_ok {A : Type} (r : Result A) : bool :=
  match r with Ok _ => true | Raise _ => false end.

(** [[f(x) for x in xs]], stopping at the first exception. *)
Fixpoint map_result {A B : Type} (f : A -> Result B) (xs : list A) : Result (list B) :=
  match xs with
  | [] => Ok []
  | x :: rest => y ← f x; ys ← map_result f rest; Ok (y :: ys)
  end.

(** * Python's [int] and [float] constructors on strings *)

Module PyNum.
Import PyStr.

Definition digit_value (c : ascii) : N := (code c - 48)%N.

(** The value of a string of decimal digits. *)
Definition digits_value (ds : string) : N :=
  (fix go (acc : N) (s : string) : N :=
     match s with
     | EmptyString => acc
     | String c rest => go (acc * 10 + digit_value c)%N rest
     end) 0%N ds.

(** An underscore may stand between two digits and nowhere else; the
    result is the text without its underscores. *)
Fixpoint drop_underscores (prev_digit : bool) (s : string) : option string :=
  match s with
  | EmptyString => Some EmptyString
  | String c rest =>
      if Ascii.eqb c "_" then
        match rest with
        | String d _ =>
            if prev_digit && is_digit d then drop_underscores false rest else None
        | EmptyString => None
        end
      else
        match drop_underscores (is_digit c) rest with
        | Some t => Some (String c t)
        | None => None
        end
  end.

(** An optional sign: whether it is a minus, and the text after it. *)
Definition split_sign (s : string) : bool * string :=
  match s with
  | String c rest =>
      if Ascii.eqb c "-" then (true, rest)
      else if Ascii.eqb c "+" then (false, rest)
      else (false, s)
  | EmptyString => (false, s)
  end.

(** The longest prefix of digits, and the rest. *)
Fixpoint span_digits (s : string) : string * string :=
  match s with
  | String c rest =>
      if is_digit c then let '(ds, r) := span_digits rest in (String c ds, r)
      else (EmptyString, s)
  | EmptyString => (EmptyString, EmptyString)
  end.

(** [int(s)]: white space, a sign, decimal digits. *)
Definition parse_int (s : string) : option Z :=
  let '(neg, body) := split_sign (strip_space s) in
  match drop_underscores false body with
  | Some ds =>
      match ds with
      | EmptyString => None
      | _ => if all is_digit ds
             then Some (if neg then (- Z.of_N (digits_value ds))%Z
                        else Z.of_N (digits_value ds))
             else None
      end
  | None => None
  end.

Definition int (s : string) : Result Value :=
  match parse_int s with
  | Some z => Ok (VInt z)
  | None => Raise (ValueError ("invalid literal for int() with base 10: " +:+ s))
  end.

(** A decimal literal: mantissa and power of ten. *)
Definition parse_decimal (body : string) : option (N * Z) :=
  let '(ip, r1) := span_digits body in
  let '(fp, r2) :=
    match r1 with
    | String c r => if Ascii.eqb c "." then span_digits r else (EmptyString, r1)
    | EmptyString => (EmptyString, r1)
    end in
  match ip +:+ fp with
  | EmptyString => None
  | mant =>
      let shift := Z.of_nat (String.length fp) in
      match r2 with
      | EmptyString => Some (digits_value mant, (- shift)%Z)
      | String c r3 =>
          if Ascii.eqb c "e" || Ascii.eqb c "E" then
            let '(eneg, r4) := split_sign r3 in
            let '(ed, r5) := span_digits r4 in
            match ed, r5 with
            | String _ _, EmptyString =>
                let e := Z.of_N (digits_value ed) in
                Some (digits_value mant, ((if eneg then - e else e) - shift)%Z)
            | _, _ => None
            end
          else None
      end
  end.

Definition prec : Z := 53.
Definition emax : Z := 1024.

(** The binary64 number nearest to [m * 10 ^ e], ties to even. *)
Definition float_of_decimal (neg : bool) (m : N) (e : Z) : spec_float :=
  match m with
  | N0 => S754_zero neg
  | Npos p =>
      match e with
      | Zneg k =>
          SFdiv prec emax (S754_finite neg p 0)
                (S754_finite false (Pos.pow 10 k) 0)
      | _ => binary_normalize prec emax
               (if neg then Zneg (p * Z.to_pos (10 ^ e)) else Zpos (p * Z.to_pos (10 ^ e)))
               0 neg
      end
  end.

(** [float(s)]: white space, a sign, then [inf], [infinity], [nan] in any
    letter case or a decimal literal. *)
Definition parse_float (s : string) : option spec_float :=
  match drop_underscores false (strip_space s) with
  | None => None
  | Some t =>
      let '(neg, body) := split_sign t in
      let word := lower body in
      if String.eqb word "inf" || String.eqb word "infinity"
      then Some (S754_infinity neg)
      else if String.eqb word "nan" then Some S754_nan
      else match parse_decimal body with
           | Some (m, e) => Some (float_of_decimal neg m e)
           | None => None
           end
  end.

Definition float (s : string) : Result Value :=
  match parse_float s with
  | Some f => Ok (VFloat f)
  | None => Raise (ValueError ("could not convert string to float: " +:+ s))
  end.

End PyNum.

(** * brain_utils/string_utils.py *)

Module StringUtils.
Import PyStr.

Definition openers : string := "[{(<".
Definition closers : string := "]})>".

(** [dict(zip(openers, closers))] *)
Definition opener_to_closer : gmap ascii ascii :=
  list_to_map [("["%char, "]"%char); ("{"%char, "}"%char);
               ("("%char, ")"%char); ("<"%char, ">"%char)].

(** What iterating a generator to its end produces: the values it yields,
    in order, and the exception that ends the iteration, if one does.  A
    consumer sees every yielded value before it sees the exception. *)
Definition Generated : Type := list string * option PyError.

Definition yield (s : string) (g : Generated) : Generated := (s :: fst g, snd g).

Definition exited_too_many (string : string) : PyError :=
  AssertionError [FText "You exited more brackets that we have entered in string ";
                  FText string].
Definition bracket_mismatch (c o : ascii) (string : string) : PyError :=
  AssertionError [FText "Closing bracket "; FText (chr c);
                  FText " did not match opening bracket "; FText (chr o);
                  FText " in string "; FText string].
Definition not_all_closed (string : string) : PyError :=
  AssertionError [FText "You did not close all brackets in string "; FText string].

Section Loop.
Variables (string delimiter : string) (strip_brackets : bool) (maxsplit : option Z).

(** [depth == 0 and c == delimiter and (maxsplit is None or n_yields < maxsplit)] *)
Definition splits_here (c : ascii) (depth : nat) (n_yields : Z) : bool :=
  (depth =? 0)%nat && String.eqb (chr c) delimiter
  && match maxsplit with None => true | Some m => (n_yields <? m)%Z end.

(** The body of [for c in string] and the two statements after it, run
    on the characters still to come. *)
Fixpoint loop (todo : String.string) (current_string : String.string) (n_yields : Z)
         (depth : nat) (opening_bracket : gmap nat ascii) {struct todo} : Generated :=
  match todo with
  | EmptyString =>
      if (depth =? 0)%nat then ([current_string], None)
      else ([], Some (not_all_closed string))
  | String c rest =>
      (* the last [if]/[else] of the body, reached without [continue] *)
      let split_or_append (depth : nat) (opening_bracket : gmap nat ascii) :=
        if splits_here c depth n_yields
        then yield current_string
                   (loop rest EmptyString (n_yields + 1)%Z depth opening_bracket)
        else loop rest (current_string +:+ chr c) n_yields depth opening_bracket in
      if mem c openers then
        let depth := S depth in
        let opening_bracket := <[depth := c]> opening_bracket in
        if strip_brackets && (depth =? 1)%nat
        then loop rest current_string n_yields depth opening_bracket
        else split_or_append depth opening_bracket
      else if mem c closers then
        if (depth =? 0)%nat then ([], Some (exited_too_many string))
        else
          match opening_bracket !! depth with
          | None => ([], Some (KeyError "opening_bracket"))
          | Some o =>
              if negb (bool_decide (opener_to_closer !! o = Some c))
              then ([], Some (bracket_mismatch c o string))
              else
                let depth := (depth - 1)%nat in
                if strip_brackets && (depth =? 0)%nat
                then loop rest current_string n_yields depth opening_bracket
                else split_or_append depth opening_bracket
          end
      else split_or_append depth opening_bracket
  end.
End Loop.

(** [bracketed_split(string, delimiter, strip_brackets, maxsplit)], iterated
    to its end. *)
Definition bracketed_split (string delimiter : string) (strip_brackets : bool)
           (maxsplit : option Z) : Generated :=
  loop string delimiter strip_brackets maxsplit string EmptyString 0%Z 0%nat ∅.

(** [list(generator)] *)
Definition to_list (g : Generated) : Result (list string) :=
  match snd g with
  | None => Ok (fst g)
  | Some e => Raise e
  end.

(** [s.replace(old, new)] for a one-character [old]. *)
Fixpoint replace_char (old : ascii) (new s : string) : string :=
  match s with
  | EmptyString => EmptyString
  | String c rest =>
      if Ascii.eqb c old then new +:+ replace_char old new rest
      else String c (replace_char old new rest)
  end.

(** [s.endswith(suffix)] *)
Definition endswith (s suffix : string) : bool :=
  (String.length suffix <=? String.length s)%nat
  && String.eqb (drop (String.length s - String.length suffix) s) suffix.

(** [s[:-n]]; for [n = 0] this is [s[:0]], the empty string. *)
Definition drop_last (n : nat) (s : string) : string :=
  match n with
  | O => EmptyString
  | _ => String.substring 0 (String.length s - n) s
  end.

Definition newline : ascii := ascii_of_nat 10.

Definition indent_string (string indent : String.string)
           (include_first include_last : bool) : String.string :=
  let base := replace_char newline (chr newline +:+ indent) string in
  let base := if include_first then indent +:+ base else base in
  if negb include_last && endswith base (chr newline +:+ indent)
  then drop_last (String.length indent) base
  else base.

End StringUtils.

(** * Python's hashing, [OrderedDict] and [set] *)

Module PyDict.

(** The pieces of a hashable object that decide equality as a dictionary
    key.  A number is written [m * 2 ^ e] with [m] odd, or [0 * 2 ^ 0], so
    that [1], [1.0] and [True] are one key. *)
Inductive Atom : Type :=
| ANoValue
| ANone
| ANum (m e : Z)
| AInf (neg : bool)
| ANan
| AStr (s : string)
| ATuple (n : nat)
| AObject (cls state : string).

#[global] Instance Atom_eq_dec : EqDecision Atom.
Proof. solve_decision. Defined.

(** [p = q * 2 ^ k] with [q] odd. *)
Fixpoint odd_part (p : positive) : positive * Z :=
  match p with
  | xO p' => let '(q, k) := odd_part p' in (q, (k + 1)%Z)
  | _ => (p, 0%Z)
  end.

Definition num_atom (m e : Z) : Atom :=
  match m with
  | Z0 => ANum 0 0
  | Zpos p => let '(q, k) := odd_part p in ANum (Zpos q) (e + k)
  | Zneg p => let '(q, k) := odd_part p in ANum (Zneg q) (e + k)
  end.

Definition float_atom (f : spec_float) : Atom :=
  match f with
  | S754_zero _ => ANum 0 0
  | S754_infinity neg => AInf neg
  | S754_nan => ANan
  | S754_finite neg m e => num_atom (if neg then Zneg m else Zpos m) e
  end.

(** [hash(v)] succeeds exactly when this is [Some]: lists, sets, dicts and
    [attrs] instances (which compare by value) are unhashable. *)
Fixpoint hash_key (v : Value) : option (list Atom) :=
  match v with
  | VNoValue => Some [ANoValue]
  | VNone => Some [ANone]
  | VBool b => Some [num_atom (if b then 1 else 0) 0]
  | VInt z | VIntEnum _ z => Some [num_atom z 0]
  | VFloat f => Some [float_atom f]
  | VStr s => Some [AStr s]
  | VObject cls state => Some [AObject cls state]
  | VTuple items =>
      (fix go (vs : list Value) : option (list Atom) :=
         match vs with
         | [] => Some []
         | x :: rest =>
             match hash_key x, go rest with
             | Some kx, Some kr => Some (kx ++ kr)
             | _, _ => None
             end
         end) items
      ≫= λ ks, Some (ATuple (length items) :: ks)
  | VList _ | VSet _ | VDict _ | VRecord _ _ => None
  end.

(** A NaN produced by one conversion is a different object from a NaN
    produced by another, and equals nothing. *)
Definition nan_free (k : list Atom) : bool := bool_decide (ANan ∉ k).

(** Whether a key already in the container is the key [k] being stored. *)
Definition same_key (k : list Atom) (present : Value) : bool :=
  nan_free k && bool_decide (hash_key present = Some k).

Fixpoint update (k : list Atom) (key val : Value) (items : list (Value * Value))
  : list (Value * Value) :=
  match items with
  | [] => [(key, val)]
  | (key', val') :: rest =>
      if same_key k key' then (key', val) :: rest
      else (key', val') :: update k key val rest
  end.

(** [d[key] = val] on an [OrderedDict]: a key that is present keeps its
    place and takes the new value, a new key goes to the end. *)
Definition setitem (items : list (Value * Value)) (key val : Value)
  : Result (list (Value * Value)) :=
  match hash_key key with
  | Some k => Ok (update k key val items)
  | None => Raise (TypeError "unhashable type")
  end.

(** [s.add(v)]; the model keeps the elements in the order they came. *)
Definition add (items : list Value) (v : Value) : Result (list Value) :=
  match hash_key v with
  | Some k => Ok (if existsb (same_key k) items then items else items ++ [v])
  | None => Raise (TypeError "unhashable type")
  end.

End PyDict.

(** * auto_argparser/auto_argparser.py: converters *)

(** [str2bool] *)
Definition str2bool (bool_argstring : string) : Result Value :=
  if bool_decide (PyStr.lower bool_argstring ∈ ["yes"; "true"; "t"; "y"; "1"])
  then Ok (VBool true)
  else if bool_decide (PyStr.lower bool_argstring ∈ ["no"; "false"; "f"; "n"; "0"])
  then Ok (VBool false)
  else Raise (ArgumentTypeError
                ("Boolean value expected, but got " +:+ PyStr.dquote
                 +:+ bool_argstring +:+ PyStr.dquote +:+ ".")).

(** [parse_string_guessing_type] *)
Definition parse_string_guessing_type (string : String.string) : Result Value :=
  let string := PyStr.strip " " string in
  if PyStr.isnumeric string then PyNum.int string
  else if PyStr.all (λ s, PyStr.mem s "1234567890.") (PyStr.lstrip "-" string)
  then PyNum.float string
  else if String.eqb (PyStr.lower string) "none" then Ok VNone
  else if bool_decide (PyStr.lower string ∈ ["true"; "false"]) then str2bool string
  else if PyStr.startswith string "'" || PyStr.startswith string PyStr.dquote
  then Ok (VStr (PyStr.strip (PyStr.dquote +:+ "'") string))
  else Ok (VStr string).

(** Running [f] over the values of a generator as they are yielded, with
    the running result [acc]: an exception of [f] comes before whatever the
    generator does next. *)
Definition consume {A : Type} (g : StringUtils.Generated)
           (f : A -> string -> Result A) (acc : A) : Result A :=
  r ← foldl (λ racc s, a ← racc; f a s) (Ok acc) (fst g);
  match snd g with
  | Some e => Raise e
  | None => Ok r
  end.

Definition is_none_type (t : TypeAnnotation) : bool :=
  match t with TNoneType => true | _ => false end.

Section Converters.
(** [dateparser.parse], a library outside the repository. *)
Variable dateparser_parse : string -> Result Value.

Definition Converter : Type := string -> Result Value.

(** The closure of the [Mapping]/[Dict] branch. *)
Definition convert_mapping_string (key_converter val_converter : Converter)
           (string_rep : string) : Result Value :=
  kv_pairs ← consume (StringUtils.bracketed_split string_rep "," false None)
               (λ pairs substr,
                  p ← StringUtils.to_list
                        (StringUtils.bracketed_split substr ":" true (Some 1%Z));
                  Ok (pairs ++ [p]))
               [];
  if negb (forallb (λ p, (length p =? 2)%nat) kv_pairs)
  then Raise (AutoArgParserError
                [FText "We expect a string containing colon-separated pairs like ";
                 FText PyStr.dquote; FText "key1:val1,key2:val2"; FText PyStr.dquote;
                 FText ".  "; FText (PyStr.chr StringUtils.newline);
                 FText "... Got "; FText PyStr.dquote; FText string_rep;
                 FText PyStr.dquote; FText ", which splits into "; FTuples kv_pairs])
  else
    items ← foldl (λ ritems p,
                     items ← ritems;
                     match p with
                     | [k; v] =>
                         key ← key_converter k;
                         val ← val_converter v;
                         PyDict.setitem items key val
                     | _ => Raise (ValueError "not enough values to unpack")
                     end)
                  (Ok []) kv_pairs;
    Ok (VDict items).

(** The closure of the [Sequence]/[List] branch, [constructor = list]. *)
Definition convert_sequence_string_list (converter : Converter) (string_rep : string)
  : Result Value :=
  items ← consume (StringUtils.bracketed_split string_rep "," true None)
            (λ items s, v ← converter s; Ok (items ++ [v])) [];
  Ok (VList items).

(** The closure of the [Set] branch, [constructor = set]. *)
Definition convert_sequence_string_set (converter : Converter) (string_rep : string)
  : Result Value :=
  items ← consume (StringUtils.bracketed_split string_rep "," true None)
            (λ items s, v ← converter s; PyDict.add items v) [];
  Ok (VSet items).

Definition tuple_length_mismatch (subtypes : list TypeAnnotation)
           (string_reps : list string) : PyError :=
  AssertionError
    [FText "The length of type args for this tuple: "; FTypes subtypes;
     FText " ("; FInt (Z.of_nat (length subtypes));
     FText ") does not match the length of provided values: "; FStrs string_reps;
     FText " ("; FInt (Z.of_nat (length string_reps)); FText ")"].

(** The closure of the [Tuple] branch. *)
Definition convert_tuple_string (subtypes : list TypeAnnotation)
           (converters : list Converter) (string_rep : string) : Result Value :=
  let string_reps := PyStr.split "," string_rep in
  if negb (length subtypes =? length string_reps)%nat
  then Raise (tuple_length_mismatch subtypes string_reps)
  else
    items ← map_result (λ '(converter, s), converter s) (zip converters string_reps);
    Ok (VTuple items).

Definition no_union_match (string_rep : string) (subtypes : list TypeAnnotation)
  : PyError :=
  AutoArgParserError
    [FText "Provided value "; FText string_rep;
     FText " doesn't seem to match any of the union types: "; FTypes subtypes].

(** [for subtype in subtypes: try: return ... except: continue] *)
Fixpoint first_success (converters : list Converter) (string_rep : string)
  : option Value :=
  match converters with
  | [] => None
  | converter :: rest =>
      match converter string_rep with
      | Ok v => Some v
      | Raise _ => first_success rest string_rep
      end
  end.

(** The closure of the [Union] branch. *)
Definition convert_union_string (subtypes : list TypeAnnotation)
           (converters : list Converter) (string_rep : string) : Result Value :=
  if String.eqb string_rep "None" && existsb is_none_type subtypes then Ok VNone
  else match first_success converters string_rep with
       | Some v => Ok v
       | None => Raise (no_union_match string_rep subtypes)
       end.

(** [get_appropriate_type_converter] *)
Fixpoint get_appropriate_type_converter (type_annotation : TypeAnnotation) : Converter :=
  match type_annotation with
  | TMapping key_type value_type | TDict key_type value_type =>
      convert_mapping_string (get_appropriate_type_converter key_type)
                             (get_appropriate_type_converter value_type)
  | TSequence subtype | TList subtype =>
      convert_sequence_string_list (get_appropriate_type_converter subtype)
  | TSet subtype =>
      convert_sequence_string_set (get_appropriate_type_converter subtype)
  | TTuple subtypes =>
      convert_tuple_string subtypes (map get_appropriate_type_converter subtypes)
  | TUnion subtypes =>
      convert_union_string subtypes (map get_appropriate_type_converter subtypes)
  | TDatetime => dateparser_parse
  | TBool => str2bool
  | TInt => PyNum.int
  | TFloat => PyNum.float
  | TStr => λ s, Ok (VStr s)
  | TIntEnum _ => PyNum.int
  | TAny => parse_string_guessing_type
  | TNoneType | TAttrs _ _ | TClass _ => λ s, Ok (VStr s)
  end.

(** [parse_argstring_with_type] *)
Definition parse_argstring_with_type (argstring : string) (seq_type : TypeAnnotation)
  : Result Value :=
  let converter := get_appropriate_type_converter seq_type in
  converter argstring.

End Converters.

(** * auto_argparser/auto_argparser.py: callables and their descriptors *)

(** [ArgSpec = namedtuple('ArgSpec', ['name', 'type', 'default', 'doc'])];
    a missing type or doc ([NoValue]) is [None], a missing default is
    [VNoValue]. *)
Module ArgSpec.
Record t : Type := make {
  name : string;
  type : option TypeAnnotation;
  default : Value;
  doc : option string;
}.
End ArgSpec.

(** What [inspect.getfullargspec] returns. *)
Module FullArgSpec.
Record t : Type := make {
  args : list string;
  varargs : option string;
  varkw : option string;
  defaults : option (list Value);
  kwonlyargs : list string;
  annotations : gmap string TypeAnnotation;
}.
End FullArgSpec.

(** A callable object, as far as the parser looks at it. *)
Module Callable.
Record t : Type := make {
  name_ : string;                                 (* [__name__] *)
  doc_ : option string;                           (* [__doc__] *)
  ismethod : bool;                                (* [inspect.ismethod] *)
  isclass : bool;                                 (* [inspect.isclass] *)
  getfullargspec : FullArgSpec.t;
  call : gmap string Value -> Result Value;       (* [f( **kwargs)] *)
}.
End Callable.

(** The characters [a-zA-Z0-9_] of the docstring pattern. *)
Definition is_name_char (c : ascii) : bool :=
  PyStr.between 97 122 c || PyStr.between 65 90 c || PyStr.is_digit c
  || Ascii.eqb c "_".

Fixpoint span_name (s : string) : string * string :=
  match s with
  | String c rest =>
      if is_name_char c then let '(n, r) := span_name rest in (String c n, r)
      else (EmptyString, s)
  | EmptyString => (EmptyString, EmptyString)
  end.

(** [argument_pattern.match(line)], groups 1 and 5.  The pattern reads:
    blanks, the text [:param ], a run of name characters (group 1), blanks,
    a lazy run of any characters, a colon, blanks, the rest (group 5).  So
    the name is the longest run of name characters after [:param ], the lazy
    run ends at the first colon after it, and group 5 is what follows that
    colon and the blanks after it. *)
Definition match_argument_pattern (line : string) : option (string * string) :=
  let s := PyStr.lstrip " " line in
  if PyStr.startswith s ":param " then
    let '(name, rest) := span_name (PyStr.drop 7 s) in
    match PyStr.partition ":" rest with
    | Some (_, text) => Some (name, PyStr.lstrip " " text)
    | None => None
    end
  else None.

(** [parse_docstring] *)
Definition parse_docstring (docstring : string) : gmap string string :=
  foldl (λ docs line,
           match match_argument_pattern line with
           | Some (name, text) => <[name := text]> docs
           | None => docs
           end)
        ∅ (PyStr.split StringUtils.newline docstring).

(** [type(v)], as an annotation. *)
Definition type_of (v : Value) : TypeAnnotation :=
  match v with
  | VNoValue => TClass "type"
  | VNone => TNoneType
  | VBool _ => TBool
  | VInt _ => TInt
  | VFloat _ => TFloat
  | VStr _ => TStr
  | VList _ => TClass "list"
  | VSet _ => TClass "set"
  | VTuple _ => TClass "tuple"
  | VDict _ => TClass "OrderedDict"
  | VIntEnum cls _ => TIntEnum cls
  | VRecord cls _ => TClass cls
  | VObject cls _ => TClass cls
  end.

(** [v is NoValue] *)
Definition is_NoValue (v : Value) : bool :=
  match v with VNoValue => true | _ => false end.

Definition is_bool_type (t : TypeAnnotation) : bool :=
  match t with TBool => true | _ => false end.

(** [argstr.startswith('-') and len(argstr.lstrip('-.,0123456789')) != 0] *)
Definition is_argument_key (argstr : string) : bool :=
  PyStr.startswith argstr "-"
  && negb (String.length (PyStr.lstrip "-.,0123456789" argstr) =? 0)%nat.

(** [separate_subargs_under_name] *)
Definition separate_subargs_under_name (args : list string) (name : string)
           (short_name : option string) : list string * list string :=
  let '(keepers, remainders, _) :=
    foldl (λ '(keepers, remainders, last_was_keeper) argstr,
             if is_argument_key argstr then
               let full_prefix := "--" +:+ name +:+ "." in
               let short_prefix := (λ s, "-" +:+ s +:+ ".") <$> short_name in
               if PyStr.startswith argstr full_prefix then
                 let subarg := PyStr.drop (String.length full_prefix) argstr in
                 (keepers ++ ["--" +:+ subarg], remainders, true)
               else
                 match short_prefix with
                 | Some short_prefix =>
                     if PyStr.startswith argstr short_prefix then
                       let subarg := PyStr.drop (String.length short_prefix) argstr in
                       (keepers ++ ["--" +:+ subarg], remainders, true)
                     else (keepers, remainders ++ [argstr], false)
                 | None => (keepers, remainders ++ [argstr], false)
                 end
             else if (last_was_keeper : bool) then (keepers ++ [argstr], remainders, false)
             else (keepers, remainders ++ [argstr], last_was_keeper))
          ([], [], false) args in
  (keepers, remainders).

(** The fields of an [attrs] class: name, annotation, default. *)
Definition AttrsFields : Type := list (string * option TypeAnnotation * option Value).

(** Calling an [attrs] class: its generated [__init__] takes the fields as
    keyword arguments, fills in the defaults and builds the instance. *)
Definition attrs_init (cls : string) (fields : AttrsFields) (kwargs : gmap string Value)
  : Result Value :=
  if bool_decide (Forall (λ k, k ∈ fields.*1.*1) (elements (dom kwargs))) then
    values ← map_result
               (λ '(name, _, default),
                  match kwargs !! name, default with
                  | Some v, _ => Ok (name, v)
                  | None, Some d => Ok (name, d)
                  | None, None =>
                      Raise (TypeError ("__init__() missing 1 required positional argument: "
                                        +:+ name))
                  end)
               fields;
    Ok (VRecord cls values)
  else Raise (TypeError "__init__() got an unexpected keyword argument").

(** An [attrs] class as the callable that [AutoArgParser(argspec.type)]
    receives.  [attrs] lets no field without a default follow one with a
    default, so the defaults belong to the last fields. *)
Definition attrs_class (cls : string) (fields : AttrsFields) : Callable.t :=
  {| Callable.name_ := cls;
     Callable.doc_ := None;
     Callable.ismethod := false;
     Callable.isclass := true;
     Callable.getfullargspec :=
       {| FullArgSpec.args := "self" :: fields.*1.*1;
          FullArgSpec.varargs := None;
          FullArgSpec.varkw := None;
          FullArgSpec.defaults :=
            match omap snd fields with
            | [] => None
            | ds => Some ds
            end;
          FullArgSpec.kwonlyargs := [];
          FullArgSpec.annotations :=
            list_to_map (omap (λ '(name, t, _), (λ t, (name, t)) <$> t) fields) |};
     Callable.call := attrs_init cls fields |}.

(** [attr.has(argspec.type)] *)
Definition attr_has (type : option TypeAnnotation) : option (string * AttrsFields) :=
  match type with
  | Some (TAttrs cls fields) => Some (cls, fields)
  | _ => None
  end.

(** * auto_argparser/auto_argparser.py: the parser *)

(** The object [AutoArgParser.__init__] builds.  The return converter and
    the report switch only shape what is printed after the call and are
    left out. *)
Module AutoArgParser.
Record t : Type := make {
  function : Callable.t;
  _short_names : gmap string string;
  _arg_converters : gmap string Converter;
  _raise_deep_exceptions : bool;
  _args : list ArgSpec.t;
}.
End AutoArgParser.

Definition unknown_names (what : string) (keys : list string) (function : Callable.t)
  : PyError :=
  AssertionError
    [FText what;
     FNames (filter (λ k, k ∉ FullArgSpec.args (Callable.getfullargspec function)) keys);
     FText " do not exist in the list of args to function ";
     FText (Callable.name_ function)].

(** [more_itertools.zip_equal] on two lists. *)
Definition zip_equal {A B : Type} (xs : list A) (ys : list B) : Result (list (A * B)) :=
  if (length xs =? length ys)%nat then Ok (zip xs ys) else Raise UnequalIterablesError.

(** [set(keys).issubset(names)] *)
Definition issubset (keys names : list string) : bool :=
  forallb (λ k, bool_decide (k ∈ names)) keys.

(** [AutoArgParser.__init__] *)
Definition __init__ (function : Callable.t)
           (arg_converters : option (gmap string Converter))
           (default_overrides : option (gmap string Value))
           (short_names : option (gmap string string))
           (raise_deep_exceptions : bool) : Result AutoArgParser.t :=
  let spec := Callable.getfullargspec function in
  _ ← match FullArgSpec.varkw spec with
      | None =>
          _ ← match short_names with
              | Some short_names =>
                  let keys := elements (dom short_names) in
                  if issubset keys (FullArgSpec.args spec) then Ok ()
                  else Raise (unknown_names "Short names " keys function)
              | None => Ok ()
              end;
          match arg_converters with
          | Some arg_converters =>
              let keys := elements (dom arg_converters) in
              if issubset keys (FullArgSpec.args spec) then Ok ()
              else Raise (unknown_names "Arg converters names " keys function)
          | None => Ok ()
          end
      | Some _ => Ok ()
      end;
  let arg_docs :=
    match Callable.doc_ function with
    | Some docstring => parse_docstring docstring
    | None => ∅
    end in
  let n := length (FullArgSpec.args spec) in
  let defaults :=
    match FullArgSpec.defaults spec with
    | None => replicate n VNoValue
    | Some ds => replicate (n - length ds) VNoValue ++ ds
    end in
  pairs ← zip_equal (FullArgSpec.args spec) defaults;
  let argspecs :=
    (λ '(name, default),
       {| ArgSpec.name := name;
          ArgSpec.type := FullArgSpec.annotations spec !! name;
          ArgSpec.default :=
            match default_overrides with
            | None => default
            | Some overrides =>
                match overrides !! name with
                | None => default
                | Some v => v
                end
            end;
          ArgSpec.doc := arg_docs !! name |}) <$> pairs in
  Ok {| AutoArgParser.function := function;
        AutoArgParser._short_names := default ∅ short_names;
        AutoArgParser._arg_converters := default ∅ arg_converters;
        AutoArgParser._raise_deep_exceptions := raise_deep_exceptions;
        AutoArgParser._args :=
          if Callable.ismethod function || Callable.isclass function
          then drop 1 argspecs else argspecs |}.

(** ** The flag-parsing library

    [argparse.ArgumentParser] is not part of the repository.  The parser
    uses four of its operations; they are the fields of this interface, and
    the functions of the repository are defined over any implementation of
    it.  [ArgParseModel] further down is one implementation. *)
Module Flag.
(** [action='store_true'], or the default action with [type=converter]. *)
Inductive Action : Type :=
| store_true
| store (type : Converter).

(** The arguments of one [add_argument] call. *)
Record Def : Type := make {
  option_strings : list string;
  help : option string;
  default : Value;
  action : Action;
}.
End Flag.

Class ArgParse : Type := {
  (** the parser object *)
  ArgumentParser : Type;
  (** [ArgumentParser(add_help=True, description=...)] *)
  new_parser : option string -> ArgumentParser;
  (** [parser.add_argument( *option_strings, help=, default=, action= | type=)] *)
  add_argument : ArgumentParser -> Flag.Def -> Result ArgumentParser;
  (** [parser.parse_known_args(args)]: the namespace and the tokens left
      over; when the library exits, [SystemExit] with what it printed *)
  parse_known_args :
    ArgumentParser -> list string -> Result (gmap string Value * list string);
  (** [parser.parse_args(args)] *)
  parse_args : ArgumentParser -> list string -> Result (gmap string Value);
}.

(** What the caller passes as [arg_strings]: one command line, or its
    tokens. *)
Inductive ArgStrings : Type :=
| CommandLine (s : string)
| Tokens (l : list string).

Section Parser.
Context {argparse : ArgParse}.
(** [shlex.split] and [dateparser.parse], libraries outside the
    repository. *)
Variable shlex_split : string -> Result (list string).
Variable dateparser_parse : string -> Result Value.

(** The loop of [_add_arg_to_parser] that looks for the argument used as
    a bare flag. *)
Fixpoint is_flag_loop (arg_strings : list string) (arg_name : string)
         (short_name : option string) : bool :=
  match arg_strings with
  | [] => false
  | argstr :: rest =>
      if negb (PyStr.mem "=" argstr) && String.eqb (PyStr.lstrip "-" argstr) arg_name
         || match short_name with
            | Some short_name => String.eqb (PyStr.lstrip "-" argstr) short_name
            | None => false
            end
      then
        match rest with
        | [] => true
        | next :: _ =>
            if PyStr.startswith next "-" then true
            else is_flag_loop rest arg_name short_name
        end
      else is_flag_loop rest arg_name short_name
  end.

(** The flag definition [_add_arg_to_parser] hands to [add_argument]. *)
Definition flag_definition (arg_strings : list string) (arg_name : string)
           (arg_type : option TypeAnnotation) (arg_doc : option string)
           (default : Value) (type_converter : option Converter)
           (short_name : option string) : Flag.Def :=
  let args :=
    match short_name with
    | Some short_name => ["-" +:+ short_name]
    | None => []
    end ++ ["--" +:+ arg_name] in
  let arg_type_guess :=
    match arg_type with
    | Some t => Some t
    | None => if is_NoValue default then None else Some (type_of default)
    end in
  let is_flag :=
    match arg_type_guess with
    | Some t => is_bool_type t && is_flag_loop arg_strings arg_name short_name
    | None => false
    end in
  let type_conv :=
    match type_converter with
    | Some c => c
    | None => match arg_type_guess with
              | Some t => get_appropriate_type_converter dateparser_parse t
              | None => parse_string_guessing_type
              end
    end in
  {| Flag.option_strings := args;
     Flag.help := arg_doc;
     Flag.default := default;
     Flag.action := if is_flag then Flag.store_true else Flag.store type_conv |}.

(** [_add_arg_to_parser] *)
Definition _add_arg_to_parser (parser : ArgumentParser) (arg_strings : list string)
           (arg_name : string) (arg_type : option TypeAnnotation)
           (arg_doc : option string) (default : Value)
           (type_converter : option Converter) (short_name : option string)
  : Result ArgumentParser :=
  add_argument parser
    (flag_definition arg_strings arg_name arg_type arg_doc default
                     type_converter short_name).

(** The loop that enables pass-by-order by inserting names, on the pairs
    that [zip] still has to give; [i] is the index [enumerate] has
    reached. *)
Fixpoint promote_loop (i : nat) (pairs : list (string * string))
         (arg_strings : list string) : list string :=
  match pairs with
  | [] => arg_strings
  | (argstr, arg_name) :: rest =>
      if is_argument_key argstr then arg_strings
      else promote_loop (S i) rest
                        (<[i := "--" +:+ arg_name +:+ "=" +:+ argstr]> arg_strings)
  end.

(** [zip] reads the token at index [i] before the body overwrites it, so
    the pairs are those of the list as it was. *)
Definition promote (arg_strings : list string) (names : list string) : list string :=
  promote_loop 0 (zip arg_strings names) arg_strings.

Definition feeding_error (arg_strings : list string) (function : Callable.t)
           (output : string) : PyError :=
  let error_text :=
    PyStr.rstrip (PyStr.chr StringUtils.newline)
                 (StringUtils.indent_string output ".   " true false) in
  AutoArgParserError
    [FText "Error when feeding args "; FText PyStr.dquote;
     FText (PyStr.join " " arg_strings); FText PyStr.dquote; FText " to ";
     FText (Callable.name_ function); FText "(...):";
     FText (PyStr.chr StringUtils.newline); FText error_text;
     FText (PyStr.chr StringUtils.newline);
     FText ".   You can set raise_deep_exceptions=True to help identify the source."].

(** [parse_arg_string_and_remaining].  A structured argument is parsed by
    a parser of its own; [depth] bounds how deep these may nest, like the
    interpreter's recursion limit. *)
Fixpoint parse_arg_string_and_remaining (depth : nat) (self : AutoArgParser.t)
         (arg_strings : ArgStrings) (allow_remaining : bool) {struct depth}
  : Result (gmap string Value * list string) :=
  arg_strings ← match arg_strings with
                | CommandLine s => shlex_split s
                | Tokens l => Ok l
                end;
  let arg_strings := promote arg_strings (ArgSpec.name <$> AutoArgParser._args self) in
  let parser :=
    new_parser (Callable.doc_ (AutoArgParser.function self)) in
  '(parser, sub_kwargs, direct_arg_strings) ←
    foldl (λ state argspec,
             '(parser, sub_kwargs, direct_arg_strings) ← state;
             let name := ArgSpec.name argspec in
             match attr_has (ArgSpec.type argspec) with
             | Some (cls, fields) =>
                 let '(sub_argstrings, direct_arg_strings) :=
                   separate_subargs_under_name direct_arg_strings name
                     (AutoArgParser._short_names self !! name) in
                 (* [AutoArgParser(argspec.type).call_from_command_line(sub_argstrings)] *)
                 sub ← __init__ (attrs_class cls fields) None None None false;
                 value ← match depth with
                         | O => Raise RecursionError
                         | S depth =>
                             '(kwargs, _) ← parse_arg_string_and_remaining
                                              depth sub (Tokens sub_argstrings) false;
                             Callable.call (AutoArgParser.function sub) kwargs
                         end;
                 Ok (parser, <[name := value]> sub_kwargs, direct_arg_strings)
             | None =>
                 parser ← _add_arg_to_parser parser arg_strings name
                            (ArgSpec.type argspec) (ArgSpec.doc argspec)
                            (ArgSpec.default argspec)
                            (AutoArgParser._arg_converters self !! name)
                            (AutoArgParser._short_names self !! name);
                 Ok (parser, sub_kwargs, direct_arg_strings)
             end)
          (Ok (parser, ∅, arg_strings)) (AutoArgParser._args self);
  let parsed :=
    if allow_remaining then parse_known_args parser direct_arg_strings
    else args ← parse_args parser direct_arg_strings; Ok (args, []) in
  match parsed with
  | Raise (SystemExit code output) =>
      if (code =? 0)%Z then Raise (SystemExit code output)
      else if AutoArgParser._raise_deep_exceptions self
           then Raise (AutoArgParserError [FExit code])
           else Raise (feeding_error arg_strings (AutoArgParser.function self) output)
  | Raise e => Raise e
  | Ok (args, remaining) =>
      let kwargs := filter (λ kv, is_NoValue kv.2 = false) args in
      (* [kwargs.update(sub_kwargs)] *)
      let kwargs := (sub_kwargs : gmap string Value) ∪ kwargs in
      Ok (kwargs, remaining)
  end.

(** [call_from_command_line_with_remaining]; the printed report is left
    out. *)
Definition call_from_command_line_with_remaining (depth : nat) (self : AutoArgParser.t)
           (arg_strings : ArgStrings) (allow_remaining : bool)
  : Result (Value * list string) :=
  '(kwargs, remaining) ← parse_arg_string_and_remaining depth self arg_strings
                           allow_remaining;
  return_val ← Callable.call (AutoArgParser.function self) kwargs;
  Ok (return_val, remaining).

(** [call_from_command_line] *)
Definition call_from_command_line (depth : nat) (self : AutoArgParser.t)
           (arg_strings : ArgStrings) : Result Value :=
  '(return_val, _) ← call_from_command_line_with_remaining depth self arg_strings false;
  Ok return_val.

End Parser.

(** * brain_utils/type_utils.py

    An annotation [Optional[T]] is [Union[T, None]]: the arguments of a
    union are its arms, in the order they are written. *)

Module TypeUtils.

(** [is_optional_type] *)
Definition is_optional_type (type_annotation : TypeAnnotation) : bool :=
  match type_annotation with
  | TUnion args => (length args =? 2)%nat && existsb is_none_type args
  | _ => false
  end.

(** [get_optional_type] *)
Definition get_optional_type (type_annotation : TypeAnnotation) : Result TypeAnnotation :=
  if negb (is_optional_type type_annotation) then Raise (AssertionError [])
  else match type_annotation with
       | TUnion [base_type; _] => Ok base_type
       | _ => Raise (ValueError "not enough values to unpack")
       end.

End TypeUtils.

(** [get_maybe_optional_type] *)
Definition get_maybe_optional_type (type_annotation : TypeAnnotation)
  : Result TypeAnnotation :=
  if TypeUtils.is_optional_type type_annotation
  then TypeUtils.get_optional_type type_annotation
  else Ok type_annotation.

(** ** The callers of the parser *)

Section SingleArg.
Context {argparse : ArgParse}.
Variable shlex_split : string -> Result (list string).
Variable dateparser_parse : string -> Result Value.

Definition parsing_error (arg_name : string) (args : list string) (error_text : string)
  : PyError :=
  AutoArgParserError
    [FText "Error whan parsing arg "; FText arg_name; FText " from ";
     FText PyStr.dquote; FText (PyStr.join " " args); FText PyStr.dquote;
     FText ": "; FText error_text].

Definition no_value_for (arg_name : string) (args : list string) : PyError :=
  AutoArgParserError
    [FText "Could not get a value for arg "; FText arg_name; FText " from ";
     FText PyStr.dquote; FText (PyStr.join " " args); FText PyStr.dquote].

(** [parse_single_arg]; [factory] is what calling the factory gives, if
    there is one. *)
Definition parse_single_arg (args : ArgStrings) (arg_name : string)
           (arg_type : option TypeAnnotation) (default : Value)
           (factory : option (Result Value)) (short_name : option string)
  : Result (Value * list string) :=
  args ← match args with
         | CommandLine s => shlex_split s
         | Tokens l => Ok l
         end;
  parser ← _add_arg_to_parser dateparser_parse (new_parser None) args arg_name arg_type
             None default None short_name;
  match parse_known_args parser args with
  | Raise (SystemExit _ error_text) => Raise (parsing_error arg_name args error_text)
  | Raise e => Raise e
  | Ok (names, remaining) =>
      match names !! arg_name with
      | None => Raise (OtherError "AttributeError" arg_name)
      | Some arg_value =>
          if is_NoValue arg_value then
            match factory with
            | Some produced => arg_value ← produced; Ok (arg_value, remaining)
            | None => Raise (no_value_for arg_name args)
            end
          else Ok (arg_value, remaining)
      end
  end.

End SingleArg.

(** [AutoArgParsingSwitch]: [named_funcs] is the dictionary as the list of
    its items, in insertion order; an entry is an [AutoArgParser] or a plain
    callable. *)
Module AutoArgParsingSwitch.

Definition t : Type := list (string * (AutoArgParser.t + Callable.t)).

(** [named_funcs[func_str]] *)
Fixpoint getitem (named_funcs : t) (func_str : string)
  : option (AutoArgParser.t + Callable.t) :=
  match named_funcs with
  | [] => None
  | (name, func) :: rest =>
      if String.eqb name func_str then Some func else getitem rest func_str
  end.

Definition no_function_given (named_funcs : t) : PyError :=
  AutoArgParserError
    [FText "You didn't specify a function to call.  Options: "; FStrs (named_funcs.*1)].

Definition no_such_function (named_funcs : t) (func_str : string) : PyError :=
  AutoArgParserError
    [FText "No function "; FText func_str; FText " in options: ";
     FStrs (named_funcs.*1)].

Section Switch.
Context {argparse : ArgParse}.
Variable shlex_split : string -> Result (list string).
Variable dateparser_parse : string -> Result Value.

(** [AutoArgParsingSwitch.call_from_command_line] *)
Definition call_from_command_line (depth : nat) (named_funcs : t)
           (arg_strings : ArgStrings) : Result Value :=
  arg_strings ← match arg_strings with
                | CommandLine s => shlex_split s
                | Tokens l => Ok l
                end;
  match arg_strings with
  | [] => Raise (no_function_given named_funcs)
  | func_str :: rest =>
      match getitem named_funcs func_str with
      | None => Raise (no_such_function named_funcs func_str)
      | Some func =>
          func ← match func with
                 | inl parser => Ok parser
                 | inr function => __init__ function None None None false
                 end;
          call_from_command_line shlex_split dateparser_parse depth func (Tokens rest)
      end
  end.

End Switch.
End AutoArgParsingSwitch.

(** * A model of the flag-parsing library

    Modelled from the library: [argparse.ArgumentParser] as this repository
    configures it (options only, prefix character [-], abbreviations
    allowed, [-h]/[--help] added), following the steps of CPython's
    [argparse] module: registration with its conflict check, the
    classification of tokens into options and arguments, option strings
    split at [=], unique-prefix abbreviations, clustered one-letter flags,
    tokens that look like negative numbers, the [--] separator, conversion
    of values and of string defaults.  Of what the library prints before it
    exits only the message is kept (no usage line, no program name), and the
    help text is not rendered. *)
Module ArgParseModel.

Inductive Kind : Type :=
| help_action
| store_true_action
| store_action (type : Converter).

(** A registered action; [id] is its position among the actions of the
    parser, [default = None] is [SUPPRESS]. *)
Record Action : Type := {
  id : nat;
  option_strings : list string;
  dest : string;
  default : option Value;
  kind : Kind;
}.

Record Parser : Type := {
  actions : list Action;
  (** [_option_string_actions], in insertion order *)
  option_string_actions : list (string * Action);
  has_negative_number_optionals : bool;
}.

Definition exit_with_error (message : string) : PyError :=
  SystemExit 2 ("error: " +:+ message +:+ PyStr.chr StringUtils.newline).

(** [str(ArgumentError(action, message))] *)
Definition argument_error (action : Action) (message : string) : string :=
  "argument " +:+ PyStr.join "/" (option_strings action) +:+ ": " +:+ message.

(** [repr] of a string without quotes or control characters in it. *)
Definition repr (s : string) : string := "'" +:+ s +:+ "'".

(** The pattern [^-\d+$|^-\d*\.\d+$]; [$] also matches before a final
    newline. *)
Definition at_end (s : string) : bool :=
  String.eqb s EmptyString || String.eqb s (PyStr.chr StringUtils.newline).

Definition negative_number_matcher (s : string) : bool :=
  match s with
  | String "-" body =>
      let '(ip, r) := PyNum.span_digits body in
      (negb (String.eqb ip EmptyString) && at_end r)
      || match r with
         | String "." r' =>
             let '(fp, r'') := PyNum.span_digits r' in
             negb (String.eqb fp EmptyString) && at_end r''
         | _ => false
         end
  | _ => false
  end.

Definition lookup_option (p : Parser) (option_string : string) : option Action :=
  snd <$> list_find (λ kv, String.eqb kv.1 option_string) (option_string_actions p)
  ≫= λ kv, Some kv.2.

(** [d[key] = action] on [_option_string_actions] *)
Fixpoint set_option (key : string) (action : Action) (d : list (string * Action))
  : list (string * Action) :=
  match d with
  | [] => [(key, action)]
  | (k, a) :: rest =>
      if String.eqb k key then (k, action) :: rest
      else (k, a) :: set_option key action rest
  end.

Definition is_long (option_string : string) : bool :=
  match option_string with
  | String _ (String "-" _) => true
  | _ => false
  end.

(** [add_argument] for options: the destination comes from the first long
    option string, or from the first option string if none is long; an
    option string that is registered already is a conflict. *)
Definition register (p : Parser) (option_strings : list string)
           (default : option Value) (kind : Kind) (dest : option string)
  : Result Parser :=
  dest ← match dest with
         | Some d => Ok d
         | None =>
             let dest_option_string :=
               match filter (λ s, is_long s = true) option_strings with
               | long :: _ => long
               | [] => List.hd EmptyString option_strings
               end in
             let d := PyStr.lstrip "-" dest_option_string in
             if String.eqb d EmptyString
             then Raise (ValueError "dest= is required for options like this")
             else Ok (StringUtils.replace_char "-" "_" d)
         end;
  let action := {| id := length (actions p); option_strings := option_strings;
                   dest := dest; default := default; kind := kind |} in
  match filter (λ s, bool_decide (is_Some (lookup_option p s))) option_strings with
  | conflict :: _ =>
      Raise (ArgumentError (argument_error action
                              ("conflicting option string: " +:+ conflict)))
  | [] =>
      Ok {| actions := actions p ++ [action];
            option_string_actions :=
              foldl (λ d s, set_option s action d) (option_string_actions p)
                    option_strings;
            has_negative_number_optionals :=
              has_negative_number_optionals p
              || existsb negative_number_matcher option_strings |}
  end.

(** [ArgumentParser(add_help=True)] *)
Definition new_parser (description : option string) : Parser :=
  let help := {| id := 0; option_strings := ["-h"; "--help"]; dest := "help";
                 default := None; kind := help_action |} in
  {| actions := [help];
     option_string_actions := [("-h", help); ("--help", help)];
     has_negative_number_optionals := false |}.

(** [parser.add_argument] with the keywords the repository passes. *)
Definition add_argument (p : Parser) (d : Flag.Def) : Result Parser :=
  register p (Flag.option_strings d) (Some (Flag.default d))
           match Flag.action d with
           | Flag.store_true => store_true_action
           | Flag.store type => store_action type
           end
           None.

(** One interpretation of a token as an option: the action, the option
    string and the argument attached to it, if any. *)
Definition OptionTuple : Type := option Action * string * option string.

(** [_get_option_tuples], for a token of two characters or more that
    starts with [-]. *)
Definition _get_option_tuples (p : Parser) (option_string : string)
  : list OptionTuple :=
  if is_long option_string then
    let '(option_prefix, explicit_arg) :=
      match PyStr.partition "=" option_string with
      | Some (before, after) => (before, Some after)
      | None => (option_string, None)
      end in
    omap (λ '(s, action),
            if PyStr.startswith s option_prefix
            then Some (Some action, s, explicit_arg) else None)
         (option_string_actions p)
  else
    let short_option_prefix := String.substring 0 2 option_string in
    let short_explicit_arg := PyStr.drop 2 option_string in
    omap (λ '(s, action),
            if String.eqb s short_option_prefix
            then Some (Some action, s, Some short_explicit_arg)
            else if PyStr.startswith s option_string
                 then Some (Some action, s, None) else None)
         (option_string_actions p).

(** [_parse_optional]: [Ok None] for a token meant as an argument. *)
Definition _parse_optional (p : Parser) (arg_string : string)
  : Result (option OptionTuple) :=
  if negb (PyStr.startswith arg_string "-") then Ok None
  else match lookup_option p arg_string with
  | Some action => Ok (Some (Some action, arg_string, None))
  | None =>
  if (String.length arg_string =? 1)%nat then Ok None
  else
    match PyStr.partition "=" arg_string
          ≫= λ '(option_string, explicit_arg),
            (λ action, (Some action, option_string, Some explicit_arg))
              <$> lookup_option p option_string with
    | Some tuple => Ok (Some tuple)
    | None =>
        match _get_option_tuples p arg_string with
        | (_ :: _ :: _) as matches =>
            Raise (exit_with_error
                     ("ambiguous option: " +:+ arg_string +:+ " could match "
                      +:+ PyStr.join ", " ((λ t, t.1.2) <$> matches)))
        | [tuple] => Ok (Some tuple)
        | [] =>
            if negative_number_matcher arg_string
               && negb (has_negative_number_optionals p) then Ok None
            else if PyStr.mem " " arg_string then Ok None
            else Ok (Some (None, arg_string, None))
        end
    end
  end.

(** The letter of a token in [arg_strings_pattern]. *)
Inductive Letter : Type :=
| LA
| LO (tuple : OptionTuple)
| LDashes.

(** The first loop of [_parse_known_args]: after [--] every token is an
    argument. *)
Fixpoint classify (p : Parser) (after_dashes : bool) (arg_strings : list string)
  : Result (list (string * Letter)) :=
  match arg_strings with
  | [] => Ok []
  | arg_string :: rest =>
      if after_dashes then
        letters ← classify p true rest; Ok ((arg_string, LA) :: letters)
      else if String.eqb arg_string "--" then
        letters ← classify p true rest; Ok ((arg_string, LDashes) :: letters)
      else
        tuple ← _parse_optional p arg_string;
        letters ← classify p false rest;
        Ok ((arg_string, match tuple with Some t => LO t | None => LA end) :: letters)
  end.

(** What the parse has built so far. *)
Record State : Type := {
  namespace : gmap string Value;
  seen_actions : list nat;
  extras : list string;
}.

(** [_get_value] *)
Definition _get_value (action : Action) (arg_string : string) : Result Value :=
  match kind action with
  | store_action type =>
      match type arg_string with
      | Ok v => Ok v
      | Raise (ArgumentTypeError msg) =>
          Raise (exit_with_error (argument_error action msg))
      | Raise (TypeError _) | Raise (ValueError _) =>
          Raise (exit_with_error
                   (argument_error action ("invalid value: " +:+ repr arg_string)))
      | Raise e => Raise e
      end
  | _ => Ok (VStr arg_string)
  end.

(** [take_action]: [_get_values] on the strings matched, then the action
    itself. *)
Definition take_action (action : Action) (argument_strings : list string)
           (st : State) : Result State :=
  (* strip out the first [--] *)
  let arg_strings :=
    match list_find (String.eqb "--") argument_strings with
    | Some (i, _) => delete i argument_strings
    | None => argument_strings
    end in
  let seen := seen_actions st ++ [id action] in
  match kind action with
  | help_action => Raise (SystemExit 0 EmptyString)
  | store_true_action =>
      Ok {| namespace := <[dest action := VBool true]> (namespace st);
            seen_actions := seen; extras := extras st |}
  | store_action _ =>
      value ← match arg_strings with
              | [arg_string] => _get_value action arg_string
              | _ => VList <$> map_result (_get_value action) arg_strings
              end;
      Ok {| namespace := <[dest action := value]> (namespace st);
            seen_actions := seen; extras := extras st |}
  end.

(** The number of strings an action takes. *)
Definition nargs (action : Action) : nat :=
  match kind action with
  | store_action _ => 1
  | _ => 0
  end.

(** [_match_argument] against the letters that follow the option: how
    many of them the action consumes.  For an option the pattern is [(A)]
    or [()]: no [--] is allowed in it. *)
Definition match_argument (action : Action) (following : list Letter) : Result nat :=
  match nargs action, following with
  | O, _ => Ok 0%nat
  | _, LA :: _ => Ok 1%nat
  | _, _ => Raise (exit_with_error (argument_error action "expected one argument"))
  end.

Definition ignored_explicit_argument (action : Action) (explicit_arg : string)
  : PyError :=
  exit_with_error
    (argument_error action ("ignored explicit argument " +:+ repr explicit_arg)).

(** The loop of [consume_optional] for an option with an attached
    argument: the actions to take, with their strings, and whether the
    last of them still has to match the tokens that follow. *)
Fixpoint explicit_loop (p : Parser) (action : Action) (option_string : string)
         (explicit_arg : string) {struct explicit_arg}
  : Result (list (Action * list string) * option Action) :=
  match nargs action with
  | O =>
      match option_string with
      | String _ (String c1 _) =>
          match explicit_arg with
          | String c rest =>
              if Ascii.eqb c1 "-" then Raise (ignored_explicit_argument action explicit_arg)
              else
                match lookup_option p ("-" +:+ PyStr.chr c) with
                | Some next =>
                    match rest with
                    | EmptyString => Ok ([(action, [])], Some next)
                    | _ =>
                        '(tuples, last) ← explicit_loop p next ("-" +:+ PyStr.chr c) rest;
                        Ok ((action, []) :: tuples, last)
                    end
                | None => Raise (ignored_explicit_argument action explicit_arg)
                end
          | EmptyString => Raise (ignored_explicit_argument action explicit_arg)
          end
      | _ => Raise (OtherError "IndexError" "string index out of range")
      end
  | _ => Ok ([(action, [explicit_arg])], None)
  end.

(** [consume_optional]: the state after the actions, and how many of the
    following tokens were consumed. *)
Definition consume_optional (p : Parser) (action : Action) (option_string : string)
           (explicit_arg : option string) (following : list (string * Letter))
           (st : State) : Result (State * nat) :=
  '(tuples, last) ← match explicit_arg with
                    | Some e => explicit_loop p action option_string e
                    | None => Ok ([], Some action)
                    end;
  '(tuples, stop) ← match last with
                    | Some action =>
                        n ← match_argument action (following.*2);
                        Ok (tuples ++ [(action, take n (following.*1))], n)
                    | None => Ok (tuples, 0%nat)
                    end;
  st ← foldl (λ st '(action, args), st ← st; take_action action args st) (Ok st) tuples;
  Ok (st, stop).

(** The main loop of [_parse_known_args]; there are no positional
    actions, so a token that no option consumes is an extra. *)
Fixpoint consume (p : Parser) (tokens : list (string * Letter)) (skip : nat)
         (st : State) : Result State :=
  match tokens with
  | [] => Ok st
  | (arg_string, letter) :: rest =>
      match skip with
      | S skip => consume p rest skip st
      | O =>
          match letter with
          | LO (Some action, option_string, explicit_arg) =>
              '(st, stop) ← consume_optional p action option_string explicit_arg rest st;
              consume p rest stop st
          | _ =>
              consume p rest 0
                      {| namespace := namespace st; seen_actions := seen_actions st;
                         extras := extras st ++ [arg_string] |}
          end
      end
  end.

(** The defaults go into the namespace first; a default that is a string
    is converted at the end if its action was not seen. *)
Definition initial_namespace (p : Parser) : gmap string Value :=
  foldl (λ ns action,
           match default action, ns !! dest action with
           | Some d, None => <[dest action := d]> ns
           | _, _ => ns
           end) ∅ (actions p).

Definition convert_defaults (p : Parser) (st : State) : Result State :=
  foldl (λ st action,
           st ← st;
           match default action, namespace st !! dest action with
           | Some (VStr d), Some (VStr current) =>
               if bool_decide (id action ∉ seen_actions st) && String.eqb d current
               then value ← _get_value action d;
                    Ok {| namespace := <[dest action := value]> (namespace st);
                          seen_actions := seen_actions st; extras := extras st |}
               else Ok st
           | _, _ => Ok st
           end) (Ok st) (actions p).

(** [parse_known_args] *)
Definition parse_known_args (p : Parser) (args : list string)
  : Result (gmap string Value * list string) :=
  tokens ← classify p false args;
  st ← consume p tokens 0
         {| namespace := initial_namespace p; seen_actions := []; extras := [] |};
  st ← convert_defaults p st;
  Ok (namespace st, extras st).

(** [parse_args] *)
Definition parse_args (p : Parser) (args : list string) : Result (gmap string Value) :=
  '(namespace, argv) ← parse_known_args p args;
  match argv with
  | [] => Ok namespace
  | _ => Raise (exit_with_error ("unrecognized arguments: " +:+ PyStr.join " " argv))
  end.

#[global] Instance model : ArgParse := {
  ArgumentParser := Parser;
  new_parser := ArgParseModel.new_parser;
  add_argument := ArgParseModel.add_argument;
  parse_known_args := ArgParseModel.parse_known_args;
  parse_args := ArgParseModel.parse_args;
}.

End ArgParseModel.

(** * Callables of the repository and of its tests *)

Module Examples.

(** Calling a Python function with keyword arguments only: a keyword that
    is no parameter and a parameter without value or default are a
    [TypeError]; otherwise the body runs on the values of the parameters in
    declaration order. *)
Definition call_function (params : list (string * option Value))
           (body : list Value → Result Value) (kwargs : gmap string Value)
  : Result Value :=
  if bool_decide (Forall (λ k, k ∈ params.*1) (elements (dom kwargs))) then
    values ← map_result
               (λ '(name, default),
                  match kwargs !! name, default with
                  | Some v, _ => Ok v
                  | None, Some d => Ok d
                  | None, None =>
                      Raise (TypeError ("missing 1 required positional argument: "
                                        +:+ name))
                  end)
               params;
    body values
  else Raise (TypeError "got an unexpected keyword argument").

(** A plain function, as [inspect] describes it. *)
Definition plain_function (name : string) (doc : option string)
           (params : list (string * option Value))
           (annotations : list (string * TypeAnnotation))
           (body : list Value → Result Value) : Callable.t :=
  {| Callable.name_ := name;
     Callable.doc_ := doc;
     Callable.ismethod := false;
     Callable.isclass := false;
     Callable.getfullargspec :=
       {| FullArgSpec.args := params.*1;
          FullArgSpec.varargs := None;
          FullArgSpec.varkw := None;
          FullArgSpec.defaults :=
            match omap snd params with
            | [] => None
            | ds => Some ds
            end;
          FullArgSpec.kwonlyargs := [];
          FullArgSpec.annotations := list_to_map annotations |};
     Callable.call := call_function params body |}.

(** The float [3.] *)
Definition three : spec_float := S754_finite false 6755399441055744 (-51).

(** [def print_a_plus_b(a: float, b: float = 3.)] of the module; it prints
    and returns [None]. *)
Definition print_a_plus_b : Callable.t :=
  plain_function "print_a_plus_b"
    (Some (" Example function" +:+ PyStr.chr StringUtils.newline
           +:+ "    :param a: Something" +:+ PyStr.chr StringUtils.newline
           +:+ "    :param b: Somethings else" +:+ PyStr.chr StringUtils.newline
           +:+ "    "))
    [("a", None); ("b", Some (VFloat three))]
    [("a", TFloat); ("b", TFloat)]
    (λ _, Ok VNone).

(** [def compute_a_minus_b(a: float, b: float) -> float: return a - b] of
    the tests. *)
Definition compute_a_minus_b : Callable.t :=
  plain_function "compute_a_minus_b" None
    [("a", None); ("b", None)]
    [("a", TFloat); ("b", TFloat); ("return", TFloat)]
    (λ values,
       match values with
       | [VFloat a; VFloat b] => Ok (VFloat (SFsub PyNum.prec PyNum.emax a b))
       | _ => Raise (TypeError "unsupported operand type(s) for -")
       end).

(** [def maybe_negate(number: int, negate: bool = False): return -number if
    negate else number] of the tests. *)
Definition maybe_negate : Callable.t :=
  plain_function "maybe_negate" None
    [("number", None); ("negate", Some (VBool false))]
    [("number", TInt); ("negate", TBool)]
    (λ values,
       match values with
       | [VInt number; VBool negate] => Ok (VInt (if negate then - number else number))
       | _ => Raise (TypeError "bad operand type for unary -")
       end).

(** The class [Person] of the tests, with fields [name: str] and
    [age: int], and [def greet_persion(greeting: str, person: Person)]. *)
Definition Person : TypeAnnotation :=
  TAttrs "Person" [("name", Some TStr, None); ("age", Some TInt, None)].

Definition greet_persion : Callable.t :=
  plain_function "greet_persion" None
    [("greeting", None); ("person", None)]
    [("greeting", TStr); ("person", Person)]
    (λ values,
       match values with
       | [VStr greeting; VRecord _ [(_, VStr name); (_, VInt _)]] =>
           Ok (VStr (greeting +:+ " " +:+ name))
       | _ => Raise (TypeError "bad arguments")
       end).

(** The parsers [AutoArgParser(f)] of these callables. *)
Definition parser_of (function : Callable.t) (args : list ArgSpec.t) : AutoArgParser.t :=
  {| AutoArgParser.function := function;
     AutoArgParser._short_names := ∅;
     AutoArgParser._arg_converters := ∅;
     AutoArgParser._raise_deep_exceptions := false;
     AutoArgParser._args := args |}.

Definition a_minus_b_parser : AutoArgParser.t :=
  parser_of compute_a_minus_b
            [ArgSpec.make "a" (Some TFloat) VNoValue None;
             ArgSpec.make "b" (Some TFloat) VNoValue None].

Definition maybe_negate_parser : AutoArgParser.t :=
  parser_of maybe_negate
            [ArgSpec.make "number" (Some TInt) VNoValue None;
             ArgSpec.make "negate" (Some TBool) (VBool false) None].

Definition greet_parser : AutoArgParser.t :=
  parser_of greet_persion
            [ArgSpec.make "greeting" (Some TStr) VNoValue None;
             ArgSpec.make "person" (Some Person) VNoValue None].

(** Stand-ins for the two libraries no example below depends on: a
    [shlex.split] for command lines without quotes, and a [dateparser.parse]
    that recognises nothing. *)
Definition split_blanks (s : string) : Result (list string) :=
  Ok (filter (λ t, t ≠ EmptyString) (PyStr.split " " s)).

Definition no_dates (s : string) : Result Value := Ok VNone.

End Examples.

(** * Definitions used to state the properties *)

Module Spec.
Import StringUtils.

(** The text without its brackets of nesting depth one: an opener that
    takes the depth from 0 to 1 and a closer that takes it from 1 to 0
    are dropped, every other character is kept. *)
Fixpoint strip_outermost (depth : nat) (s : string) : string :=
  match s with
  | EmptyString => EmptyString
  | String c rest =>
      if PyStr.mem c openers then
        match depth with
        | O => strip_outermost 1 rest
        | _ => String c (strip_outermost (S depth) rest)
        end
      else if PyStr.mem c closers then
        match depth with
        | 1 => strip_outermost 0 rest
        | _ => String c (strip_outermost (depth - 1) rest)
        end
      else String c (strip_outermost depth rest)
  end.

(** Whether the bracket opened just before [s] is closed by the last
    character of [s] and not earlier; [depth] counts the brackets that
    are open. *)
Fixpoint closes_at_end (depth : nat) (s : string) : bool :=
  match s with
  | EmptyString => false
  | String c rest =>
      if PyStr.mem c openers then closes_at_end (S depth) rest
      else if PyStr.mem c closers then
        match depth with
        | O => false
        | 1 => String.eqb rest EmptyString
        | S d => closes_at_end d rest
        end
      else closes_at_end depth rest
  end.

(** The specification's wording for [strip_brackets]: a bracket pair is
    dropped only when it encloses the whole segment. *)
Definition strip_enclosing_pair (segment : string) : string :=
  match segment with
  | String c rest =>
      if PyStr.mem c openers && closes_at_end 1 rest
      then String.substring 0 (String.length rest - 1) rest
      else segment
  | EmptyString => EmptyString
  end.

(** A delimiter that is one closing bracket. *)
Definition is_closer (delimiter : string) : bool :=
  match delimiter with
  | String c EmptyString => PyStr.mem c closers
  | _ => false
  end.

(** The form a key token of the sub-namespace takes in the sub-parser:
[--<name>.<rest>] and [-<short_name>.<rest>] become [--<rest>]; [None] for
any other token. *)
Definition sub_key (name : string) (short_name : option string) (argstr : string)
  : option string :=
  if is_argument_key argstr then
    if PyStr.startswith argstr ("--" +:+ name +:+ ".")
    then Some ("--" +:+ PyStr.drop (String.length ("--" +:+ name +:+ ".")) argstr)
    else match short_name with
         | Some short =>
             if PyStr.startswith argstr ("-" +:+ short +:+ ".")
             then Some ("--" +:+ PyStr.drop (String.length ("-" +:+ short +:+ ".")) argstr)
             else None
         | None => None
         end
  else None.

(** Where a token goes, and in what form. *)
Inductive Route : Type :=
| to_sub (token : string)
| to_remaining (token : string).

(** The route of a token, given the token just before it: a key of the
    sub-namespace goes to the sub-parser without its prefix; a token that is
    no key and directly follows such a key goes there as it is; every other
    token stays. *)
Definition route (name : string) (short_name : option string)
           (previous : option string) (argstr : string) : Route :=
  match sub_key name short_name argstr with
  | Some rewritten => to_sub rewritten
  | None =>
      if negb (is_argument_key argstr)
         && bool_decide (is_Some (previous ≫= sub_key name short_name))
      then to_sub argstr
      else to_remaining argstr
  end.

Definition sub_token (r : Route) : option string :=
  match r with to_sub t => Some t | to_remaining _ => None end.

Definition remaining_token (r : Route) : option string :=
  match r with to_remaining t => Some t | to_sub _ => None end.

(** The routes of the tokens of a list, in order; [previous] is the token
    before the first. *)
Fixpoint routes (name : string) (short_name : option string)
         (previous : option string) (args : list string) : list Route :=
  match args with
  | [] => []
  | argstr :: rest =>
      route name short_name previous argstr :: routes name short_name (Some argstr) rest
  end.

(** The specification's [ArgumentConversionError]: the module's own
    [AutoArgParserError], and the [ArgumentTypeError] of a bad boolean
    literal, which the flag-parsing library reports and the parser raises
    again as [AutoArgParserError]. *)
Definition is_ArgumentConversionError (e : PyError) : bool :=
  match e with
  | AutoArgParserError _ | ArgumentTypeError _ => true
  | _ => false
  end.

(** The keys of an override mapping that may be absent. *)
Definition override_keys {A : Type} (overrides : option (gmap string A)) : list string :=
  match overrides with
  | Some m => elements (dom m)
  | None => []
  end.

(** What [inspect.getfullargspec] guarantees: there are no more defaults
    than parameters. *)
Definition defaults_fit (spec : FullArgSpec.t) : bool :=
  match FullArgSpec.defaults spec with
  | Some ds => (length ds <=? length (FullArgSpec.args spec))%nat
  | None => true
  end.

(** Whether two hashable objects that come from different conversions are
    equal as dictionary keys. *)
Definition same (k1 k2 : Value) : bool :=
  match PyDict.hash_key k1 with
  | Some h => PyDict.same_key h k2
  | None => false
  end.

(** The value of the last pair of [rest] whose key equals [key]; [v] when
    there is none. *)
Fixpoint last_value (key v : Value) (rest : list (Value * Value)) : Value :=
  match rest with
  | [] => v
  | (k', v') :: rest' => last_value key (if same key k' then v' else v) rest'
  end.

(** Last write wins: one entry for every key that equals none of the keys
    [kept] so far, in the order the keys are first met, each with the value
    of the last pair that has its key. *)
Fixpoint first_with_last (kept : list Value) (pairs : list (Value * Value))
  : list (Value * Value) :=
  match pairs with
  | [] => []
  | (k, v) :: rest =>
      if existsb (λ k0, same k0 k) kept then first_with_last kept rest
      else (k, last_value k v rest) :: first_with_last (kept ++ [k]) rest
  end.

Definition last_write_wins : list (Value * Value) → list (Value * Value) :=
  first_with_last [].

(** The first statement of [convert_mapping_string]: the string split at
    its top-level commas, each part split at its first top-level colon. *)
Definition split_pairs (string_rep : string) : Result (list (list string)) :=
  consume (bracketed_split string_rep "," false None)
          (λ pairs substr,
             p ← to_list (bracketed_split substr ":" true (Some 1%Z));
             Ok (pairs ++ [p]))
          [].

(** The pairs of a mapping string, converted, before they are stored. *)
Definition mapping_pairs (key_converter val_converter : Converter) (string_rep : string)
  : Result (list (Value * Value)) :=
  kv_pairs ← split_pairs string_rep;
  map_result (λ p, match p with
                   | [k; v] =>
                       key ← key_converter k; val ← val_converter v; Ok (key, val)
                   | _ => Raise (ValueError "not enough values to unpack")
                   end) kv_pairs.

(** The named form of positional tokens: the token at position [i] as a
    value of the parameter at position [i]. *)
Definition named (names tokens : list string) : list string :=
  zip_with (λ name token, "--" +:+ name +:+ "=" +:+ token) names tokens.

(** [v] is the word [w] with any of its letters in upper case; [w] is
    written in lower-case letters and digits. *)
Fixpoint any_case (w v : string) : bool :=
  match w, v with
  | EmptyString, EmptyString => true
  | String c w, String d v =>
      (Ascii.eqb d c
       || (PyStr.between 97 122 c && (PyStr.code d =? PyStr.code c - 32)%N))
      && any_case w v
  | _, _ => false
  end.

Definition truthy : list string := ["yes"; "true"; "t"; "y"; "1"].
Definition falsy : list string := ["no"; "false"; "f"; "n"; "0"].

(** The boolean a value stands for, if it is one of the recognized words
    in any letter case. *)
Definition bool_of_word (v : string) : option bool :=
  if existsb (λ w, any_case w v) truthy then Some true
  else if existsb (λ w, any_case w v) falsy then Some false
  else None.


(** [f] holds of every character. *)
Definition all_chars (f : ascii → bool) : bool :=
  forallb (λ n, f (ascii_of_nat n)) (seq 0 256).

(** [cur_s] is what stripping has made of [cur_n], read from depth 0,
    and reading [cur_n] ends at [depth]. *)
Definition stripped_to (depth : nat) (cur_n cur_s : string) : Prop :=
  ∀ t, strip_outermost 0 (cur_n +:+ t) = cur_s +:+ strip_outermost depth t.

(** No two of the keys are equal. *)
Fixpoint distinct (keys : list Value) : Prop :=
  match keys with
  | [] => True
  | k :: rest => Forall (λ k', same k k' = false) rest ∧ distinct rest
  end.

(** The statements of the loop that fills the dictionary, for pairs that
    are converted already. *)
Definition store_all (items : list (Value * Value)) (pairs : list (Value * Value))
  : Result (list (Value * Value)) :=
  foldl (λ ritems p, items ← ritems; PyDict.setitem items p.1 p.2) (Ok items) pairs.

(** No value of the map is the sentinel. *)
Definition free_of_NoValue (kwargs : gmap string Value) : Prop :=
  ∀ name, kwargs !! name ≠ Some VNoValue.

(** [c] is the closing bracket of the opening bracket [o]. *)
Definition closes (o c : ascii) : bool :=
  existsb (λ pair, String.eqb pair (PyStr.chr o +:+ PyStr.chr c)) ["[]"; "{}"; "()"; "<>"].

(** The brackets of the text are closed in the order they were opened,
    each by its own closing bracket; [stack] holds the brackets open
    before the text, the innermost first. *)
Fixpoint balanced (stack : list ascii) (s : string) : bool :=
  match s with
  | EmptyString => match stack with [] => true | _ => false end
  | String c rest =>
      if PyStr.mem c openers then balanced (c :: stack) rest
      else if PyStr.mem c closers then
        match stack with
        | o :: below => closes o c && balanced below rest
        | [] => false
        end
      else balanced stack rest
  end.

(** The dictionary [opening_bracket] holds the open brackets at the
    depths [1 .. length stack]. *)
Fixpoint agrees (stack : list ascii) (opening_bracket : gmap nat ascii) : Prop :=
  match stack with
  | [] => True
  | o :: below => opening_bracket !! length stack = Some o ∧ agrees below opening_bracket
  end.

Definition is_bracket (c : ascii) : bool := PyStr.mem c openers || PyStr.mem c closers.

(** The exception is no exit of the process, or the exit with code 0 that
    a help request ends in. *)
Definition only_help_exit (e : PyError) : Prop :=
  ∀ code out, e = SystemExit code out → code = 0%Z.

(** A run of [n] blanks. *)
Fixpoint blanks (n : nat) : string :=
  match n with
  | O => EmptyString
  | S n => String " " (blanks n)
  end.

(** A docstring line that documents a parameter. *)
Definition param_line (indent : nat) (name text : string) : string :=
  blanks indent +:+ ":param " +:+ name +:+ ": " +:+ text.
End Spec.

(** * Properties of the bracket-aware splitter *)

Section BracketedSplit.
Import StringUtils Spec.

Lemma append_cons (x : ascii) (a b : string) :
  String x a +:+ b = String x (a +:+ b).
Proof. reflexivity. Qed.

Lemma append_nil_l (a : string) : EmptyString +:+ a = a.
Proof. reflexivity. Qed.

Lemma append_assoc (a b c : string) : (a +:+ b) +:+ c = a +:+ (b +:+ c).
Proof.
  induction a as [|x a IH]; [done|]. by rewrite !append_cons, IH.
Qed.

Lemma append_nil_r (a : string) : a +:+ EmptyString = a.
Proof.
  induction a as [|x a IH]; [done|]. by rewrite append_cons, IH.
Qed.

Lemma stripped_to_nil : stripped_to 0 EmptyString EmptyString.
Proof. by intros t. Qed.

Lemma stripped_to_done cur_n cur_s :
  stripped_to 0 cur_n cur_s → strip_outermost 0 cur_n = cur_s.
Proof.
  intros H. specialize (H EmptyString).
  by rewrite !append_nil_r in H.
Qed.

Lemma stripped_to_step depth depth' cur_n cur_s c out :
  stripped_to depth cur_n cur_s →
  (∀ t, strip_outermost depth (String c t) = out +:+ strip_outermost depth' t) →
  stripped_to depth' (cur_n +:+ PyStr.chr c) (cur_s +:+ out).
Proof.
  unfold stripped_to, PyStr.chr. intros H Hc t.
  rewrite !append_assoc, append_cons, append_nil_l. by rewrite H, Hc.
Qed.

(** With [strip_brackets] the loop yields, state for state, the stripped
    forms of what it yields without. *)
Lemma loop_strip string delimiter maxsplit todo :
  is_closer delimiter = false →
  ∀ cur_n cur_s n_yields depth opening_bracket,
    stripped_to depth cur_n cur_s →
    loop string delimiter true maxsplit todo cur_s n_yields depth opening_bracket
    = let g := loop string delimiter false maxsplit todo cur_n n_yields depth
                    opening_bracket in
      (strip_outermost 0 <$> fst g, snd g).
Proof.
  intros Hdelim. induction todo as [|c rest IH]; intros cur_n cur_s n d ob Hs.
  - cbn [loop]. destruct d; cbn; [|done]. by rewrite (stripped_to_done _ _ Hs).
  - cbn [loop]. destruct (PyStr.mem c openers) eqn:Hop.
    + (* an opener *)
      destruct d as [|d]; cbn [andb Nat.eqb].
      * unfold splits_here. cbn [andb Nat.eqb].
        apply IH. replace cur_s with (cur_s +:+ EmptyString) by apply append_nil_r.
        eapply stripped_to_step; [done|]. intros t. cbn [strip_outermost].
        by rewrite Hop.
      * unfold splits_here. cbn [andb Nat.eqb].
        apply IH. eapply stripped_to_step; [done|]. intros t. cbn [strip_outermost].
        by rewrite Hop.
    + destruct (PyStr.mem c closers) eqn:Hcl.
      * (* a closer *)
        destruct d as [|d]; cbn [Nat.eqb]; [done|].
        destruct (ob !! S d) as [o|]; [|done].
        destruct (negb _); [done|].
        cbn [Nat.sub]. rewrite Nat.sub_0_r. destruct d as [|d]; cbn [andb Nat.eqb].
        -- unfold splits_here. cbn [andb Nat.eqb].
           replace (String.eqb (PyStr.chr c) delimiter) with false; cbn [andb].
           ++ apply IH. replace cur_s with (cur_s +:+ EmptyString) by apply append_nil_r.
              eapply stripped_to_step; [done|]. intros t. cbn [strip_outermost].
              by rewrite Hop, Hcl.
           ++ symmetry. apply String.eqb_neq. intros <-.
              unfold is_closer, PyStr.chr in Hdelim. congruence.
        -- unfold splits_here. cbn [andb Nat.eqb].
           apply IH. eapply stripped_to_step; [done|]. intros t. cbn [strip_outermost].
           by rewrite Hop, Hcl.
      * (* any other character *)
        destruct (splits_here delimiter maxsplit c d n) eqn:Hsplit.
        -- unfold splits_here in Hsplit. destruct d; [|done].
           unfold yield. rewrite (IH EmptyString EmptyString); [|apply stripped_to_nil].
           cbn. by rewrite (stripped_to_done _ _ Hs).
        -- apply IH. eapply stripped_to_step; [done|]. intros t. cbn [strip_outermost].
           by rewrite Hop, Hcl.
Qed.

End BracketedSplit.

(** The specification's wording agrees with the splitter where a pair does
    enclose a whole segment. *)
Example strip_enclosing_pair_whole_segment :
  Spec.strip_enclosing_pair <$> ["abc"; "(def,(ghi,jkl))"; "[x](y)"]
  = ["abc"; "def,(ghi,jkl)"; "[x](y)"].
Proof. reflexivity. Qed.

(** C3, as the specification words it, fails: on [a(b)c] the pair [( )] does
    not enclose the segment [a(b)c], so the wording keeps it, but the
    splitter with [strip_brackets] yields [abc]. *)
Lemma bracketed_split_strip_counterexample :
  (StringUtils.bracketed_split "a(b)c" "," true None).1 = ["abc"]
  ∧ Spec.strip_enclosing_pair <$> (StringUtils.bracketed_split "a(b)c" "," false None).1
    = ["a(b)c"]
  ∧ (StringUtils.bracketed_split "a(b)c" "," true None).1
    ≠ Spec.strip_enclosing_pair
        <$> (StringUtils.bracketed_split "a(b)c" "," false None).1.
Proof. repeat split; [reflexivity..|discriminate]. Qed.

(** C3, amended: with [strip_brackets] set the splitter yields the segments
    it yields without it, each without its brackets of nesting depth one
    (the opener that takes the depth from 0 to 1 and the closer that takes
    it back to 0), whether or not that pair encloses the whole segment;
    brackets nested deeper are kept verbatim, and the iteration ends the
    same way.  The delimiter is any string but a single closing bracket. *)
Theorem bracketed_split_strips_outermost (string delimiter : String.string)
        (maxsplit : option Z) :
  Spec.is_closer delimiter = false →
  StringUtils.bracketed_split string delimiter true maxsplit
  = (Spec.strip_outermost 0
       <$> (StringUtils.bracketed_split string delimiter false maxsplit).1,
     (StringUtils.bracketed_split string delimiter false maxsplit).2).
Proof.
  intros Hdelim. unfold StringUtils.bracketed_split.
  by rewrite (loop_strip _ _ _ _ Hdelim EmptyString EmptyString 0%Z 0%nat ∅
                         stripped_to_nil).
Qed.

Lemma bracketed_split_strips_outermost_witness :
  Spec.is_closer "," = false
  ∧ StringUtils.bracketed_split "abc,(d(e)f,(ghi,jkl))x" "," true None
    = (["abc"; "d(e)f,(ghi,jkl)x"], None).
Proof.
  split; [reflexivity|].
  rewrite (bracketed_split_strips_outermost "abc,(d(e)f,(ghi,jkl))x" "," None);
    reflexivity.
Defined.

(** * Properties of the sub-namespace router *)

Section Router.
Import Spec.
Variables (name : string) (short_name : option string).

(** The body of the loop of [separate_subargs_under_name]. *)
Let step : list string * list string * bool → string → list string * list string * bool :=
  λ '(keepers, remainders, last_was_keeper) argstr,
    if is_argument_key argstr then
      let full_prefix := "--" +:+ name +:+ "." in
      let short_prefix := (λ s, "-" +:+ s +:+ ".") <$> short_name in
      if PyStr.startswith argstr full_prefix then
        let subarg := PyStr.drop (String.length full_prefix) argstr in
        (keepers ++ ["--" +:+ subarg], remainders, true)
      else
        match short_prefix with
        | Some short_prefix =>
            if PyStr.startswith argstr short_prefix then
              let subarg := PyStr.drop (String.length short_prefix) argstr in
              (keepers ++ ["--" +:+ subarg], remainders, true)
            else (keepers, remainders ++ [argstr], false)
        | None => (keepers, remainders ++ [argstr], false)
        end
    else if (last_was_keeper : bool) then (keepers ++ [argstr], remainders, false)
    else (keepers, remainders ++ [argstr], last_was_keeper).

Lemma separate_step keepers remainders previous argstr :
  step (keepers, remainders,
        bool_decide (is_Some (previous ≫= sub_key name short_name))) argstr
  = (keepers ++ from_option (λ t, [t]) []
                  (sub_token (route name short_name previous argstr)),
     remainders ++ from_option (λ t, [t]) []
                     (remaining_token (route name short_name previous argstr)),
     bool_decide (is_Some (sub_key name short_name argstr))).
Proof.
  unfold step, route, sub_key.
  destruct (is_argument_key argstr) eqn:Hkey; cbn [negb andb].
  - destruct (PyStr.startswith argstr ("--" +:+ name +:+ ".")).
    { cbn. by rewrite app_nil_r. }
    destruct short_name as [short|]; cbn [fmap option_fmap option_map].
    + destruct (PyStr.startswith argstr ("-" +:+ short +:+ ".")); cbn;
        by rewrite app_nil_r.
    + cbn. by rewrite app_nil_r.
  - destruct (bool_decide _); cbn; by rewrite app_nil_r.
Qed.

Lemma separate_loop args :
  ∀ keepers remainders previous,
    (foldl step
           (keepers, remainders,
            bool_decide (is_Some (previous ≫= sub_key name short_name))) args).1
    = (keepers ++ omap sub_token (routes name short_name previous args),
       remainders ++ omap remaining_token (routes name short_name previous args)).
Proof.
  induction args as [|argstr rest IH]; intros keepers remainders previous.
  - cbn. by rewrite !app_nil_r.
  - cbn [foldl routes]. rewrite separate_step.
    rewrite (IH _ _ (Some argstr)). cbn [omap list_omap].
    destruct (route name short_name previous argstr); cbn;
      by rewrite ?app_nil_r, <- ?app_assoc.
Qed.

End Router.

(** C5: the router sends every key token [--<name>.<rest>] or
    [-<short_name>.<rest>] to the sub-tokens as [--<rest>], sends a token
    that is not a key and directly follows such a key to the sub-tokens as
    it is, and sends every other token to the remaining tokens; each output
    keeps the order of the input. *)
Theorem separate_subargs_under_name_routes (args : list string) (name : string)
        (short_name : option string) :
  separate_subargs_under_name args name short_name
  = (omap Spec.sub_token (Spec.routes name short_name None args),
     omap Spec.remaining_token (Spec.routes name short_name None args)).
Proof.
  unfold separate_subargs_under_name.
  transitivity
    ((foldl (λ '(keepers, remainders, last_was_keeper) argstr,
               if is_argument_key argstr then
                 let full_prefix := "--" +:+ name +:+ "." in
                 let short_prefix := (λ s, "-" +:+ s +:+ ".") <$> short_name in
                 if PyStr.startswith argstr full_prefix then
                   let subarg := PyStr.drop (String.length full_prefix) argstr in
                   (keepers ++ ["--" +:+ subarg], remainders, true)
                 else
                   match short_prefix with
                   | Some short_prefix =>
                       if PyStr.startswith argstr short_prefix then
                         let subarg := PyStr.drop (String.length short_prefix) argstr in
                         (keepers ++ ["--" +:+ subarg], remainders, true)
                       else (keepers, remainders ++ [argstr], false)
                   | None => (keepers, remainders ++ [argstr], false)
                   end
               else if (last_was_keeper : bool)
                    then (keepers ++ [argstr], remainders, false)
                    else (keepers, remainders ++ [argstr], last_was_keeper))
            ([], [], false) args).1).
  { by destruct (foldl _ _ args) as [[keepers remainders] last]. }
  exact (separate_loop name short_name args [] [] None).
Qed.

(** The example of the docstring. *)
Example separate_subargs_under_name_person :
  separate_subargs_under_name
    ["--greeting"; "hello"; "--person.name"; "Suzy"; "--person.age"; "30"] "person" None
  = (["--name"; "Suzy"; "--age"; "30"], ["--greeting"; "hello"]).
Proof. reflexivity. Qed.

(** * Properties of the type guesser *)

Section Guessing.
Import PyStr PyNum.

Lemma digit_facts (c : ascii) :
  is_digit c = true →
  is_space c = false ∧ Ascii.eqb c "-" = false ∧ Ascii.eqb c "+" = false
  ∧ Ascii.eqb c "_" = false ∧ Ascii.eqb c "." = false ∧ lower_char c = c
  ∧ Ascii.eqb c "i" = false ∧ Ascii.eqb c "n" = false ∧ Ascii.eqb c " " = false.
Proof.
  destruct c as [[] [] [] [] [] [] [] []]; vm_compute; intros; try discriminate;
    repeat split; reflexivity.
Qed.

Lemma in_number_chars (c : ascii) :
  mem c "1234567890." = true →
  mem c " " = false ∧ (is_numeric_char c = true → is_digit c = true).
Proof.
  cbn [mem].
  repeat match goal with
         | |- context [Ascii.eqb c ?d] =>
             destruct (Ascii.eqb_spec c d) as [->|_]; [by vm_compute|]
         end.
  done.
Qed.

Lemma rstrip_id (chars s : string) :
  all (λ c, negb (mem c chars)) s = true → rstrip chars s = s.
Proof.
  induction s as [|c rest IH]; [done|]. cbn [all rstrip].
  intros [Hc Hrest]%andb_true_iff. rewrite (IH Hrest).
  destruct rest; [|done]. by destruct (mem c chars).
Qed.

Lemma lstrip_id (chars s : string) :
  all (λ c, negb (mem c chars)) s = true → lstrip chars s = s.
Proof.
  destruct s as [|c rest]; [done|]. cbn [all lstrip].
  intros [Hc _]%andb_true_iff. by destruct (mem c chars).
Qed.

Lemma strip_id (chars s : string) :
  all (λ c, negb (mem c chars)) s = true → strip chars s = s.
Proof. intros H. unfold strip. by rewrite (lstrip_id _ _ H), rstrip_id. Qed.

Lemma all_impl (p q : ascii → bool) (s : string) :
  (∀ c, p c = true → q c = true) → all p s = true → all q s = true.
Proof.
  intros Hpq. induction s as [|c rest IH]; [done|]. cbn [all].
  intros [Hc Hrest]%andb_true_iff. by rewrite (Hpq _ Hc), IH.
Qed.

(** A string of minus signs followed by digits and dots holds no blank. *)
Lemma number_chars_no_blank (s : string) :
  all (λ c, mem c "1234567890.") (lstrip "-" s) = true →
  all (λ c, negb (mem c " ")) s = true.
Proof.
  induction s as [|c rest IH]; [done|]. cbn [lstrip].
  destruct (mem c "-") eqn:Hminus.
  - intros H. cbn [all]. rewrite (IH H), andb_true_r.
    unfold mem in Hminus. destruct (Ascii.eqb_spec c "-") as [->|]; [done|discriminate].
  - apply all_impl. intros d Hd. by rewrite (proj1 (in_number_chars d Hd)).
Qed.

Lemma rstrip_space_id (s : string) :
  all (λ c, negb (is_space c)) s = true → rstrip_space s = s.
Proof.
  induction s as [|c rest IH]; [done|]. cbn [all rstrip_space].
  intros [Hc Hrest]%andb_true_iff. rewrite (IH Hrest).
  destruct rest; [|done]. by destruct (is_space c).
Qed.

Lemma strip_space_id (s : string) :
  all (λ c, negb (is_space c)) s = true → strip_space s = s.
Proof.
  intros H. unfold strip_space.
  replace (lstrip_space s) with s; [by apply rstrip_space_id|].
  destruct s as [|c rest]; [done|]. cbn [all] in H. cbn [lstrip_space].
  apply andb_true_iff in H as [Hc _]. by destruct (is_space c).
Qed.

Lemma drop_underscores_digits (s : string) (prev : bool) :
  all is_digit s = true → drop_underscores prev s = Some s.
Proof.
  revert prev. induction s as [|c rest IH]; [done|]. intros prev.
  cbn [all drop_underscores]. intros [Hc Hrest]%andb_true_iff.
  destruct (digit_facts c Hc) as (_ & _ & _ & -> & _). by rewrite IH.
Qed.

Lemma span_digits_all (s : string) :
  all is_digit s = true → span_digits s = (s, EmptyString).
Proof.
  induction s as [|c rest IH]; [done|]. cbn [all span_digits].
  intros [Hc Hrest]%andb_true_iff. by rewrite Hc, IH.
Qed.

Lemma lower_digits (s : string) : all is_digit s = true → lower s = s.
Proof.
  induction s as [|c rest IH]; [done|]. cbn [all]. unfold lower. cbn [map].
  intros [Hc Hrest]%andb_true_iff. fold (lower rest). rewrite (IH Hrest).
  by destruct (digit_facts c Hc) as (_ & _ & _ & _ & _ & -> & _).
Qed.

(** [float] accepts every non-empty string of digits. *)
Lemma parse_float_digits (s : string) :
  all is_digit s = true → s ≠ EmptyString → is_Some (parse_float s).
Proof.
  intros Hall Hne. unfold parse_float.
  rewrite strip_space_id.
  2:{ eapply all_impl; [|exact Hall]. intros c Hc.
      by rewrite (proj1 (digit_facts c Hc)). }
  rewrite (drop_underscores_digits _ _ Hall).
  destruct s as [|c rest]; [done|]. cbn [all] in Hall.
  pose proof Hall as [Hc Hrest]%andb_true_iff.
  destruct (digit_facts c Hc) as (_ & Hm & Hp & _ & Hdot & Hlow & Hi & Hn & _).
  unfold split_sign. rewrite Hm, Hp.
  assert (Hl : lower (String c rest) = String c rest) by by apply lower_digits.
  rewrite Hl. cbn [String.eqb]. rewrite Hi, Hn. cbn [orb].
  unfold parse_decimal. rewrite (span_digits_all (String c rest)) by done.
  rewrite append_nil_r. by eexists.
Qed.

(** When the guesser reaches [float], [isnumeric] has said no. *)
Lemma not_isnumeric (s : string) :
  all (λ c, mem c "1234567890.") (lstrip "-" s) = true →
  parse_float s = None → isnumeric s = false.
Proof.
  intros Hchars Hfloat. destruct (isnumeric s) eqn:Hnum; [|done].
  destruct s as [|c rest]; [done|]. unfold isnumeric in Hnum.
  assert (Hc : mem c "-" = false).
  { cbn [all] in Hnum. apply andb_true_iff in Hnum as [Hc _].
    unfold mem. destruct (Ascii.eqb_spec c "-") as [->|]; [by vm_compute in Hc|done]. }
  cbn [lstrip] in Hchars. rewrite Hc in Hchars.
  assert (Hdigits : all is_digit (String c rest) = true).
  { clear Hfloat Hc. induction (String c rest) as [|d s IH]; [done|].
    cbn [all] in *. apply andb_true_iff in Hchars as [Hd Hs].
    apply andb_true_iff in Hnum as [Hd' Hs'].
    by rewrite (proj2 (in_number_chars d Hd) Hd'), IH. }
  destruct (parse_float_digits _ Hdigits) as [f Hf]; [done|]. congruence.
Qed.

End Guessing.

(** C10: the guesser is not total.  On every string that, without its
    leading minus signs, holds only digits and dots, and that [float] does
    not accept, it takes the [float] branch and raises the [ValueError] of
    [float] instead of returning the raw string. *)
Theorem parse_string_guessing_type_raises (s : string) :
  PyStr.all (λ c, PyStr.mem c "1234567890.") (PyStr.lstrip "-" s) = true →
  PyNum.parse_float s = None →
  parse_string_guessing_type s
  = Raise (ValueError ("could not convert string to float: " +:+ s)).
Proof.
  intros Hchars Hfloat. unfold parse_string_guessing_type.
  rewrite (strip_id _ _ (number_chars_no_blank _ Hchars)).
  rewrite (not_isnumeric _ Hchars Hfloat), Hchars.
  unfold PyNum.float. by rewrite Hfloat.
Qed.

Lemma parse_string_guessing_type_raises_witness :
  Forall (λ s, ∃ msg, parse_string_guessing_type s = Raise (ValueError msg))
         ["-"; "."; "1.2.3"; EmptyString; "--5"; "1..2"%string].
Proof.
  repeat constructor;
    try (eexists; apply parse_string_guessing_type_raises; reflexivity).
Defined.

(** * Properties of the converters *)

Section ConverterProperties.
Variable dateparser_parse : string → Result Value.
Let conv := get_appropriate_type_converter dateparser_parse.

Lemma existsb_is_none_type (arms : list TypeAnnotation) :
  existsb is_none_type arms = true ↔ TNoneType ∈ arms.
Proof.
  rewrite existsb_exists. split.
  - intros (t & Hin & Ht). destruct t; try done. by apply list_elem_of_In.
  - intros Hin. exists TNoneType. split; [by apply list_elem_of_In | done].
Qed.

(** The loop over the arms returns the result of the first arm that
    converts the string, and returns nothing when no arm does. *)
Lemma first_success_arms (arms : list TypeAnnotation) (s : string) :
  match first_success (map conv arms) s with
  | Some v =>
      ∃ pre T post, arms = pre ++ T :: post
                    ∧ Forall (λ U, is_ok (conv U s) = false) pre
                    ∧ conv T s = Ok v
  | None => Forall (λ U, is_ok (conv U s) = false) arms
  end.
Proof.
  induction arms as [|T rest IH]; cbn [map first_success]; [by constructor|].
  destruct (conv T s) as [v|e] eqn:HT.
  - by exists [], T, rest.
  - destruct (first_success (map conv rest) s) as [v|].
    + destruct IH as (pre & U & post & -> & Hpre & HU).
      exists (T :: pre), U, post. repeat split; [|done].
      constructor; [by rewrite HT | done].
    + constructor; [by rewrite HT | done].
Qed.

End ConverterProperties.

(** C2: the converter of a union returns null when the string is exactly
    [None] and [NoneType] is one of the arms; otherwise it returns what the
    first arm, in declared order, that converts the string makes of it; and
    when no arm converts the string it raises the module's error, whose
    message lists the arms.  For [Union[int, float, Sequence[int]]] the
    string [54] gives the int 54, [3.14] a float, [54,32,23] a list, and
    [3.14,32,23] fails. *)
Theorem convert_union_string_first_match (dateparser_parse : string → Result Value)
        (arms : list TypeAnnotation) (s : string) :
  let conv := get_appropriate_type_converter dateparser_parse in
  ((s = "None" ∧ TNoneType ∈ arms ∧ conv (TUnion arms) s = Ok VNone)
   ∨ (¬ (s = "None" ∧ TNoneType ∈ arms)
      ∧ ((∃ pre T post v,
             arms = pre ++ T :: post
             ∧ Forall (λ U, is_ok (conv U s) = false) pre
             ∧ conv T s = Ok v
             ∧ conv (TUnion arms) s = Ok v)
         ∨ (Forall (λ U, is_ok (conv U s) = false) arms
            ∧ conv (TUnion arms) s
              = Raise (AutoArgParserError
                         [FText "Provided value "; FText s;
                          FText " doesn't seem to match any of the union types: ";
                          FTypes arms])))))
  ∧ conv (TUnion [TInt; TFloat; TSequence TInt]) "54" = Ok (VInt 54)
  ∧ conv (TUnion [TInt; TFloat; TSequence TInt]) "3.14"
    = Ok (VFloat (S754_finite false 7070651414971679 (-51)))
  ∧ conv (TUnion [TInt; TFloat; TSequence TInt]) "54,32,23"
    = Ok (VList [VInt 54; VInt 32; VInt 23])
  ∧ conv (TUnion [TInt; TFloat; TSequence TInt]) "3.14,32,23"
    = Raise (no_union_match "3.14,32,23" [TInt; TFloat; TSequence TInt]).
Proof.
  intros conv. split; [|by repeat split].
  assert (Hr : conv (TUnion arms) s
               = convert_union_string arms (map conv arms) s) by reflexivity.
  unfold convert_union_string in Hr.
  pose proof (first_success_arms dateparser_parse arms s) as H.
  fold conv in H.
  destruct (String.eqb_spec s "None") as [Hs|Hs]; cbn [andb] in Hr.
  - destruct (existsb is_none_type arms) eqn:Hnone.
    + left. by rewrite <- existsb_is_none_type.
    + right. split.
      { intros [_ Hin%existsb_is_none_type]. congruence. }
      destruct (first_success _ _) as [v|].
      * left. destruct H as (pre & T & post & ? & ? & ?). by exists pre, T, post, v.
      * by right.
  - right. split; [by intros [? _]|].
    destruct (first_success _ _) as [v|].
    + left. destruct H as (pre & T & post & ? & ? & ?). by exists pre, T, post, v.
    + by right.
Qed.

Lemma map_result_zip_map {A B C : Type} (f : A → B → Result C)
      (xs : list A) (ys : list B) :
  map_result (λ '(g, y), g y) (zip (map f xs) ys)
  = map_result (λ p, f p.1 p.2) (zip xs ys).
Proof.
  revert ys. induction xs as [|x xs IH]; intros [|y ys]; try done.
  cbn. destruct (f x y); [|done]. cbn. by rewrite IH.
Qed.

(** C7, as the specification words it, fails: the error of a tuple whose
    number of parts is wrong is an [AssertionError], not an error of the
    [ArgumentConversionError] kind. *)
Lemma convert_tuple_string_counterexample :
  get_appropriate_type_converter (λ _, Ok VNone) (TTuple [TInt; TInt]) "1,2,3"
  = Raise (AssertionError
             [FText "The length of type args for this tuple: "; FTypes [TInt; TInt];
              FText " ("; FInt 2;
              FText ") does not match the length of provided values: ";
              FStrs ["1"; "2"; "3"]; FText " ("; FInt 3; FText ")"])
  ∧ ¬ ∃ e, get_appropriate_type_converter (λ _, Ok VNone) (TTuple [TInt; TInt]) "1,2,3"
           = Raise e
           ∧ Spec.is_ArgumentConversionError e = true.
Proof.
  split; [reflexivity|]. intros (e & He & Hkind).
  vm_compute in He. injection He as <-. discriminate.
Qed.

(** C7, amended: the converter of [Tuple[T1..Tn]] splits the string on
    commas; when the number of parts is not [n] it fails with an
    [AssertionError] (an assertion failure, not the module's conversion
    error) whose message holds the expected types and the actual parts; when
    the numbers match it converts the parts in order, each with the
    converter of its type. *)
Theorem convert_tuple_string_arity (dateparser_parse : string → Result Value)
        (subtypes : list TypeAnnotation) (s : string) :
  let conv := get_appropriate_type_converter dateparser_parse in
  let parts := PyStr.split "," s in
  conv (TTuple subtypes) s
  = if bool_decide (length parts = length subtypes)
    then items ← map_result (λ p, conv p.1 p.2) (zip subtypes parts);
         Ok (VTuple items)
    else Raise (AssertionError
                  [FText "The length of type args for this tuple: "; FTypes subtypes;
                   FText " ("; FInt (Z.of_nat (length subtypes));
                   FText ") does not match the length of provided values: ";
                   FStrs parts;
                   FText " ("; FInt (Z.of_nat (length parts)); FText ")"]).
Proof.
  intros conv parts.
  change (conv (TTuple subtypes) s)
    with (convert_tuple_string subtypes (map conv subtypes) s).
  unfold convert_tuple_string. fold parts.
  destruct (Nat.eqb_spec (length subtypes) (length parts)) as [Heq|Hne].
  - rewrite bool_decide_eq_true_2 by done. cbn [negb].
    f_equal. exact (map_result_zip_map conv subtypes parts).
  - by rewrite bool_decide_eq_false_2 by done.
Qed.

(** * Properties of the constructor *)

Lemma issubset_Forall (keys names : list string) :
  issubset keys names = true ↔ Forall (λ k, k ∈ names) keys.
Proof.
  unfold issubset. rewrite forallb_forall, Forall_forall.
  split; intros H k Hk.
  - apply list_elem_of_In in Hk. exact (bool_decide_eq_true_1 _ (H k Hk)).
  - apply bool_decide_eq_true_2, H. by apply list_elem_of_In.
Qed.

Lemma Forall_Exists_not {A : Type} (P : A → Prop) (l : list A) :
  Forall P l → Exists (λ x, ¬ P x) l → False.
Proof.
  intros Hall (x & Hx & Hnot)%Exists_exists.
  exact (Hnot (proj1 (Forall_forall P l) Hall x Hx)).
Qed.

(** C8, as the specification words it, fails: a default-override whose key
    names no parameter does not make the construction fail, also when the
    callable has no catch-all keyword parameter. *)
Lemma init_default_overrides_counterexample :
  FullArgSpec.varkw (Callable.getfullargspec Examples.print_a_plus_b) = None
  ∧ ("zzz" ∉ FullArgSpec.args (Callable.getfullargspec Examples.print_a_plus_b))
  ∧ fmap AutoArgParser._args
         (__init__ Examples.print_a_plus_b None (Some {[ "zzz" := VInt 1 ]}) None false)
    = Ok [ArgSpec.make "a" (Some TFloat) VNoValue (Some "Something");
          ArgSpec.make "b" (Some TFloat) (VFloat Examples.three)
                       (Some "Somethings else")].
Proof.
  split; [reflexivity|]. split; [|by vm_compute].
  by apply (bool_decide_unpack _).
Qed.

(** C8, amended: when the callable has no catch-all keyword parameter,
    the constructor checks the keys of the short names and of the
    per-argument converters, and of these two mappings only: a key of one
    of them that is not among the callable's positional parameters makes
    the construction fail with an [AssertionError], and when every such key
    is a parameter the construction succeeds, whatever the keys of the
    default-overrides are (a default-override for an unknown name is
    ignored). *)
Theorem init_validates_override_keys (function : Callable.t)
        (arg_converters : option (gmap string Converter))
        (default_overrides : option (gmap string Value))
        (short_names : option (gmap string string))
        (raise_deep_exceptions : bool) :
  let spec := Callable.getfullargspec function in
  let keys := Spec.override_keys short_names ++ Spec.override_keys arg_converters in
  FullArgSpec.varkw spec = None →
  (Exists (λ k, k ∉ FullArgSpec.args spec) keys →
   ∃ msg, __init__ function arg_converters default_overrides short_names
                   raise_deep_exceptions
          = Raise (AssertionError msg))
  ∧ (Forall (λ k, k ∈ FullArgSpec.args spec) keys →
     Spec.defaults_fit spec = true →
     is_ok (__init__ function arg_converters default_overrides short_names
                     raise_deep_exceptions) = true).
Proof.
  intros spec keys Hvarkw. unfold __init__. fold spec. rewrite Hvarkw.
  subst keys. split.
  - intros Hbad. apply Exists_app in Hbad.
    destruct short_names as [shorts|]; cbn [Spec.override_keys] in *.
    + destruct (issubset _ _) eqn:Hsub; [|by eexists].
      apply issubset_Forall in Hsub. cbn.
      destruct Hbad as [Hbad|Hbad].
      { destruct (Forall_Exists_not _ _ Hsub Hbad). }
      destruct arg_converters as [convs|]; cbn [Spec.override_keys] in *.
      * destruct (issubset _ _) eqn:Hsub'; [|by eexists].
        apply issubset_Forall in Hsub'.
        destruct (Forall_Exists_not _ _ Hsub' Hbad).
      * by apply Exists_nil in Hbad.
    + destruct Hbad as [Hbad|Hbad]; [by apply Exists_nil in Hbad|]. cbn.
      destruct arg_converters as [convs|]; cbn [Spec.override_keys] in *.
      * destruct (issubset _ _) eqn:Hsub'; [|by eexists].
        apply issubset_Forall in Hsub'.
        destruct (Forall_Exists_not _ _ Hsub' Hbad).
      * by apply Exists_nil in Hbad.
  - intros [Hshort Hconv]%Forall_app Hfit.
    assert (Hchecks :
      (match short_names with
       | Some short_names =>
           if issubset (elements (dom short_names)) (FullArgSpec.args spec)
           then Ok ()
           else Raise (unknown_names "Short names " (elements (dom short_names))
                                     function)
       | None => Ok ()
       end = Ok ())
      ∧ (match arg_converters with
         | Some arg_converters =>
             if issubset (elements (dom arg_converters)) (FullArgSpec.args spec)
             then Ok ()
             else Raise (unknown_names "Arg converters names "
                                       (elements (dom arg_converters)) function)
         | None => Ok ()
         end = Ok ())).
    { split.
      - destruct short_names; [|done]. cbn in Hshort.
        by rewrite (proj2 (issubset_Forall _ _) Hshort).
      - destruct arg_converters; [|done]. cbn in Hconv.
        by rewrite (proj2 (issubset_Forall _ _) Hconv). }
    destruct Hchecks as [-> ->]. cbn.
    unfold zip_equal.
    replace (length (FullArgSpec.args spec) =? length _)%nat with true; [done|].
    symmetry. apply Nat.eqb_eq. unfold Spec.defaults_fit in Hfit.
    destruct (FullArgSpec.defaults spec) as [ds|].
    + apply Nat.leb_le in Hfit. rewrite length_app, length_replicate. lia.
    + by rewrite length_replicate.
Qed.

Lemma init_validates_override_keys_witness :
  (∃ msg, __init__ Examples.print_a_plus_b None None (Some {[ "c" := "x" ]}) false
          = Raise (AssertionError msg))
  ∧ is_ok (__init__ Examples.print_a_plus_b (Some {[ "a" := PyNum.int ]})
                    (Some {[ "zzz" := VInt 1 ]}) (Some {[ "b" := "x" ]}) false) = true.
Proof.
  split.
  - apply (init_validates_override_keys Examples.print_a_plus_b None None
             (Some {[ "c" := "x" ]}) false); [reflexivity|].
    by apply (bool_decide_unpack _).
  - apply (init_validates_override_keys Examples.print_a_plus_b
             (Some {[ "a" := PyNum.int ]}) (Some {[ "zzz" := VInt 1 ]})
             (Some {[ "b" := "x" ]}) false); [reflexivity| |reflexivity].
    by apply (bool_decide_unpack _).
Defined.

(** * Properties of the mapping converter *)

Section LastWriteWins.
Import PyDict Spec.

Lemma same_key_same (k : Value) (h : list Atom) (present : Value) :
  hash_key k = Some h → same_key h present = same k present.
Proof. intros Hk. unfold same. by rewrite Hk. Qed.

Lemma same_true (a b : Value) :
  same a b = true
  ↔ ∃ h, hash_key a = Some h ∧ hash_key b = Some h ∧ nan_free h = true.
Proof.
  unfold same, same_key. destruct (hash_key a) as [h|]; split.
  - intros [Hnan Hb%bool_decide_eq_true]%andb_true_iff. by exists h.
  - intros (h' & [= <-] & Hb & Hnan). rewrite Hnan. by apply bool_decide_eq_true_2.
  - done.
  - by intros (h' & ? & _).
Qed.

Lemma same_sym (a b : Value) : same a b = same b a.
Proof.
  apply eq_true_iff_eq. rewrite !same_true. split; intros (h & ? & ? & ?); by exists h.
Qed.

Lemma same_trans (a b c : Value) :
  same a b = true → same b c = true → same a c = true.
Proof.
  rewrite !same_true. intros (h & Ha & Hb & Hnan) (h' & Hb' & Hc & _).
  exists h. repeat split; [done| |done]. congruence.
Qed.

Lemma distinct_snoc (keys : list Value) (k : Value) :
  distinct keys → Forall (λ k0, same k0 k = false) keys → distinct (keys ++ [k]).
Proof.
  induction keys as [|k0 rest IH]; cbn [distinct app]; [done|].
  intros [Hk0 Hrest] [Hk0k Hrestk]%Forall_cons. split.
  - apply Forall_app. split; [done|]. by constructor.
  - by apply IH.
Qed.

Lemma existsb_false {A : Type} (p : A → bool) (l : list A) :
  existsb p l = false ↔ Forall (λ x, p x = false) l.
Proof.
  induction l as [|x l IH]; cbn [existsb]; [by split; [constructor|]|].
  rewrite orb_false_iff, Forall_cons. by rewrite IH.
Qed.

(** Storing under a key: the one entry with an equal key takes the value,
    or a new entry goes to the end. *)
Lemma update_cases (h : list Atom) (k v : Value) (items : list (Value * Value)) :
  hash_key k = Some h → distinct items.*1 →
  update h k v items
  = if existsb (λ k0, same k0 k) items.*1
    then (λ kv, (kv.1, if same kv.1 k then v else kv.2)) <$> items
    else items ++ [(k, v)].
Proof.
  intros Hk. induction items as [|[k0 v0] rest IH]; [done|].
  cbn [update fmap list_fmap fst snd existsb distinct]. intros [Hk0 Hrest].
  rewrite (same_key_same k h k0 Hk), (same_sym k k0).
  destruct (same k0 k) eqn:Hsame; cbn [orb].
  - f_equal. symmetry. clear IH Hrest.
    induction rest as [|[k1 v1] rest IH]; [done|].
    cbn [fmap list_fmap fst snd] in *. apply Forall_cons in Hk0 as [Hk01 Hk0].
    rewrite (IH Hk0). destruct (same k1 k) eqn:Hk1; [|done].
    rewrite (same_sym k1 k) in Hk1.
    by rewrite (same_trans k0 k k1 Hsame Hk1) in Hk01.
  - rewrite (IH Hrest). by destruct (existsb _ _).
Qed.

Lemma last_value_not_same (key v : Value) (k' v' : Value) (rest : list (Value * Value)) :
  same key k' = false → last_value key v ((k', v') :: rest) = last_value key v rest.
Proof. intros H. cbn [last_value]. by rewrite H. Qed.

Lemma store_all_cons items k v rest h :
  hash_key k = Some h →
  store_all items ((k, v) :: rest) = store_all (update h k v items) rest.
Proof. intros Hk. unfold store_all, setitem. cbn. by rewrite Hk. Qed.

(** Filling a dictionary that holds [items] with [pairs]: every entry that
    is there ends with its last value, and the new keys follow in the order
    they are first met. *)
Lemma store_all_last_write_wins (pairs : list (Value * Value)) :
  ∀ items,
    Forall (λ kv, is_Some (hash_key kv.1)) pairs →
    distinct items.*1 →
    store_all items pairs
    = Ok (((λ kv, (kv.1, last_value kv.1 kv.2 pairs)) <$> items)
            ++ first_with_last items.*1 pairs).
Proof.
  induction pairs as [|[k v] rest IH]; intros items Hhash Hdistinct.
  - cbn. rewrite app_nil_r. f_equal. induction items as [|[??] ? IHi]; [done|].
    cbn in *. by rewrite <- IHi at 1 by tauto.
  - apply Forall_cons in Hhash as [[h Hk] Hhash]. cbn [fst] in Hk.
    rewrite (store_all_cons _ _ _ _ _ Hk), (update_cases _ _ _ _ Hk Hdistinct).
    cbn [first_with_last].
    destruct (existsb (λ k0, same k0 k) items.*1) eqn:Hex.
    + rewrite IH; [|done|].
      * f_equal. f_equal; [|f_equal].
        -- rewrite <- list_fmap_compose. apply list_fmap_ext. by intros i [k0 v0] _.
        -- rewrite <- list_fmap_compose. apply list_fmap_ext. by intros i [k0 v0] _.
      * rewrite <- list_fmap_compose.
        by replace (fst ∘ _) with (fst : Value * Value → Value).
    + apply existsb_false in Hex.
      rewrite IH; [|done|].
      * rewrite fmap_app, <- app_assoc. cbn [fmap list_fmap app fst snd].
        rewrite (fmap_app fst). cbn [fmap list_fmap fst]. f_equal. f_equal.
        apply Forall_fmap_ext_1. rewrite Forall_fmap in Hex.
        eapply Forall_impl; [exact Hex|]. intros [k0 v0] H0. cbn in *.
        by rewrite H0.
      * rewrite fmap_app. by apply distinct_snoc.
Qed.

End LastWriteWins.

Section MappingConverter.
Import PyDict Spec.
Variables key_converter val_converter : Converter.

(** The body of the loop that fills the dictionary in
    [convert_mapping_string]. *)
Let fill : Result (list (Value * Value)) → list string → Result (list (Value * Value)) :=
  λ ritems p,
    items ← ritems;
    match p with
    | [k; v] =>
        key ← key_converter k;
        val ← val_converter v;
        PyDict.setitem items key val
    | _ => Raise (ValueError "not enough values to unpack")
    end.

(** The conversion of one pair, as [mapping_pairs] has it. *)
Let convert_pair : list string → Result (Value * Value) :=
  λ p, match p with
       | [k; v] => key ← key_converter k; val ← val_converter v; Ok (key, val)
       | _ => Raise (ValueError "not enough values to unpack")
       end.

Lemma fill_raise (e : PyError) (kv_pairs : list (list string)) :
  foldl fill (Raise e) kv_pairs = Raise e.
Proof. by induction kv_pairs. Qed.

Lemma store_raise (e : PyError) (pairs : list (Value * Value)) :
  foldl (λ ritems p, items ← ritems; setitem items p.1 p.2) (Raise e) pairs = Raise e.
Proof. by induction pairs. Qed.

Lemma convert_pair_ok (p : list string) (kv : Value * Value) :
  convert_pair p = Ok kv →
  ∃ k v, p = [k; v] ∧ key_converter k = Ok kv.1 ∧ val_converter v = Ok kv.2.
Proof.
  unfold convert_pair. destruct p as [|k [|v [|??]]]; try done.
  destruct (key_converter k) as [key|] eqn:Hk; [|done].
  destruct (val_converter v) as [val|] eqn:Hv; [|done].
  cbn. intros [= <-]. by exists k, v.
Qed.

Lemma map_result_cons_ok {A B : Type} (f : A → Result B) (x : A) (xs : list A)
      (ys : list B) :
  map_result f (x :: xs) = Ok ys →
  ∃ y ys', ys = y :: ys' ∧ f x = Ok y ∧ map_result f xs = Ok ys'.
Proof.
  cbn. destruct (f x) as [y|]; [|done]. cbn.
  destruct (map_result f xs) as [ys'|]; [|done]. cbn.
  intros [= <-]. by exists y, ys'.
Qed.

(** Converting the pairs first and storing them afterwards gives what the
    loop gives, which converts and stores pair by pair. *)
Lemma fill_store_all (kv_pairs : list (list string)) :
  ∀ pairs items,
    map_result convert_pair kv_pairs = Ok pairs →
    foldl fill (Ok items) kv_pairs = store_all items pairs.
Proof.
  induction kv_pairs as [|p rest IH]; intros pairs items.
  - cbn. by intros [= <-].
  - intros (kv & pairs' & -> & Hp & Hrest)%map_result_cons_ok.
    apply convert_pair_ok in Hp as (k & v & -> & Hk & Hv).
    destruct kv as [key val]. cbn [fst snd] in *.
    cbn [foldl]. unfold fill at 2. cbn. rewrite Hk, Hv. cbn.
    unfold store_all. cbn [foldl fst snd]. cbn.
    destruct (setitem items key val) as [items'|e].
    + by apply IH.
    + by rewrite fill_raise, store_raise.
Qed.

Lemma pairs_have_two_parts (kv_pairs : list (list string)) (pairs : list (Value * Value)) :
  map_result convert_pair kv_pairs = Ok pairs →
  forallb (λ p, (length p =? 2)%nat) kv_pairs = true.
Proof.
  revert pairs. induction kv_pairs as [|p rest IH]; [done|]. intros pairs.
  intros (kv & pairs' & -> & Hp & Hrest)%map_result_cons_ok.
  apply convert_pair_ok in Hp as (k & v & -> & _). cbn. by eapply IH.
Qed.

Lemma convert_mapping_string_stores (string_rep : string) (pairs : list (Value * Value)) :
  mapping_pairs key_converter val_converter string_rep = Ok pairs →
  Forall (λ kv, is_Some (hash_key kv.1)) pairs →
  convert_mapping_string key_converter val_converter string_rep
  = Ok (VDict (last_write_wins pairs)).
Proof.
  unfold mapping_pairs, convert_mapping_string. fold (split_pairs string_rep).
  destruct (split_pairs string_rep) as [kv_pairs|]; [|done]. cbn [mbind result_bind].
  intros Hpairs Hhash. fold convert_pair in Hpairs.
  rewrite (pairs_have_two_parts _ _ Hpairs). cbn [negb].
  change (foldl _ (Ok []) kv_pairs) with (foldl fill (Ok []) kv_pairs).
  rewrite (fill_store_all _ _ _ Hpairs).
  rewrite (store_all_last_write_wins pairs [] Hhash I). by cbn.
Qed.

End MappingConverter.

(** C9: duplicate keys do not make the converter of [Mapping[K, V]] (or
    [Dict[K, V]]) fail.  When the pairs of the string convert to [pairs] and
    the keys are hashable, the result is the ordered mapping with one entry
    for every distinct key, in the order the keys are first met, each with
    the value of the last pair that has that key. *)
Theorem convert_mapping_string_last_write_wins
        (dateparser_parse : string → Result Value) (key_type value_type : TypeAnnotation)
        (string_rep : string) (pairs : list (Value * Value)) :
  let conv := get_appropriate_type_converter dateparser_parse in
  Spec.mapping_pairs (conv key_type) (conv value_type) string_rep = Ok pairs →
  Forall (λ kv, is_Some (PyDict.hash_key kv.1)) pairs →
  conv (TMapping key_type value_type) string_rep
  = Ok (VDict (Spec.last_write_wins pairs))
  ∧ conv (TDict key_type value_type) string_rep
    = Ok (VDict (Spec.last_write_wins pairs)).
Proof.
  intros conv Hpairs Hhash.
  split; exact (convert_mapping_string_stores _ _ _ _ Hpairs Hhash).
Qed.

Lemma convert_mapping_string_last_write_wins_witness :
  get_appropriate_type_converter (λ _, Ok VNone) (TMapping TStr TStr) "k:v1,k:v2"
  = Ok (VDict [(VStr "k", VStr "v2")])
  ∧ get_appropriate_type_converter (λ _, Ok VNone) (TDict TInt TStr) "1:a,2:b,01:c"
    = Ok (VDict [(VInt 1, VStr "c"); (VInt 2, VStr "b")]).
Proof.
  split.
  - apply (convert_mapping_string_last_write_wins (λ _, Ok VNone) TStr TStr "k:v1,k:v2"
             [(VStr "k", VStr "v1"); (VStr "k", VStr "v2")]); [reflexivity|].
    repeat constructor; by eexists.
  - apply (convert_mapping_string_last_write_wins (λ _, Ok VNone) TInt TStr
             "1:a,2:b,01:c" [(VInt 1, VStr "a"); (VInt 2, VStr "b"); (VInt 1, VStr "c")]);
      [reflexivity|].
    repeat constructor; by eexists.
Defined.

(** * Properties of the parser *)

Section Promotion.
Import Spec.

Lemma lstrip_keeps_equals (chars a b : string) :
  PyStr.mem "=" chars = false → PyStr.lstrip chars (a +:+ String "=" b) ≠ EmptyString.
Proof.
  intros Hmem. induction a as [|c a IH].
  - cbn [PyStr.lstrip]. rewrite append_nil_l. cbn [PyStr.lstrip]. by rewrite Hmem.
  - rewrite append_cons. cbn [PyStr.lstrip]. by destruct (PyStr.mem c chars).
Qed.

(** A token [--<name>=<value>] is a key token, whatever the name and the
    value are. *)
Lemma is_argument_key_named (arg_name argstr : string) :
  is_argument_key ("--" +:+ arg_name +:+ "=" +:+ argstr) = true.
Proof.
  unfold is_argument_key.
  change ("--" +:+ arg_name +:+ "=" +:+ argstr)
    with (String "-" (String "-" (arg_name +:+ String "=" argstr))).
  cbn [PyStr.startswith String.prefix PyStr.lstrip PyStr.mem Ascii.eqb Bool.eqb andb].
  pose proof (lstrip_keeps_equals "-.,0123456789" arg_name argstr eq_refl) as H.
  by destruct (PyStr.lstrip _ _).
Qed.

Lemma promote_loop_positional (tokens : list string) :
  ∀ (names before : list string),
    Forall (λ t, is_argument_key t = false) tokens →
    (length tokens <= length names)%nat →
    promote_loop (length before) (zip tokens names) (before ++ tokens)
    = before ++ named names tokens.
Proof.
  induction tokens as [|t ts IH]; intros names before Hkeys Hlen; [by destruct names|].
  destruct names as [|n ns]; [cbn in Hlen; lia|].
  apply Forall_cons in Hkeys as [Ht Hts]. cbn in Hlen.
  cbn [zip zip_with promote_loop named]. rewrite Ht.
  rewrite insert_app_r_alt, Nat.sub_diag by lia.
  change (<[0%nat := "--" +:+ n +:+ "=" +:+ t]> (t :: ts))
    with (("--" +:+ n +:+ "=" +:+ t) :: ts).
  replace (S (length before)) with (length (before ++ ["--" +:+ n +:+ "=" +:+ t]))
    by (rewrite length_app; cbn; lia).
  rewrite (cons_middle _ before ts), app_assoc.
  rewrite (IH ns) by (done || lia). by rewrite <- app_assoc.
Qed.

(** Positional tokens are rewritten into their named form. *)
Lemma promote_positional (tokens names : list string) :
  Forall (λ t, is_argument_key t = false) tokens →
  (length tokens <= length names)%nat →
  promote tokens names = named names tokens.
Proof.
  intros Hkeys Hlen. exact (promote_loop_positional tokens names [] Hkeys Hlen).
Qed.

(** Tokens in named form are left as they are. *)
Lemma promote_named (tokens names : list string) :
  promote (named names tokens) names = named names tokens.
Proof.
  unfold promote, named.
  destruct names as [|n ns], tokens as [|t ts]; try done.
  cbn [zip_with promote_loop]. by rewrite is_argument_key_named.
Qed.

End Promotion.

Section ParserProperties.
Context {argparse : ArgParse}.
Variable shlex_split : string → Result (list string).
Variable dateparser_parse : string → Result Value.

Local Abbreviation parse :=
  (parse_arg_string_and_remaining shlex_split dateparser_parse).

(** What the parser does with a list of tokens depends on the list only
    through its promoted form. *)
Lemma parse_promoted (depth : nat) (self : AutoArgParser.t) (tokens tokens' : list string)
      (allow_remaining : bool) :
  promote tokens (ArgSpec.name <$> AutoArgParser._args self)
  = promote tokens' (ArgSpec.name <$> AutoArgParser._args self) →
  parse depth self (Tokens tokens) allow_remaining
  = parse depth self (Tokens tokens') allow_remaining.
Proof.
  intros Hpromote.
  destruct depth; cbn [parse_arg_string_and_remaining mbind result_bind];
    by rewrite Hpromote.
Qed.

End ParserProperties.

(** C1: positional tokens given in declaration order and the named tokens
    [--<name>=<value>] they stand for parse to the same keyword arguments
    and the same tokens left over, and so give the same call result; for
    [f(a, b)] the tokens [4 5] parse as [--a=4 --b=5] do.  A positional
    token is one that is not a key token; there are no more of them than
    parameters.  This holds for every callable and every flag-parsing
    library. *)
Theorem positional_tokens_equal_named (argparse : ArgParse)
        (shlex_split : string → Result (list string))
        (dateparser_parse : string → Result Value)
        (depth : nat) (self : AutoArgParser.t) (tokens : list string)
        (allow_remaining : bool) :
  let names := ArgSpec.name <$> AutoArgParser._args self in
  Forall (λ t, is_argument_key t = false) tokens →
  (length tokens <= length names)%nat →
  parse_arg_string_and_remaining shlex_split dateparser_parse depth self
                                 (Tokens tokens) allow_remaining
  = parse_arg_string_and_remaining shlex_split dateparser_parse depth self
                                   (Tokens (Spec.named names tokens)) allow_remaining
  ∧ call_from_command_line shlex_split dateparser_parse depth self (Tokens tokens)
    = call_from_command_line shlex_split dateparser_parse depth self
                             (Tokens (Spec.named names tokens)).
Proof.
  intros names Hkeys Hlen.
  assert (Hparse : ∀ allow,
             parse_arg_string_and_remaining shlex_split dateparser_parse depth self
                                            (Tokens tokens) allow
             = parse_arg_string_and_remaining shlex_split dateparser_parse depth self
                                              (Tokens (Spec.named names tokens)) allow).
  { intros allow. apply parse_promoted. fold names.
    by rewrite promote_named, promote_positional. }
  split; [apply Hparse|].
  unfold call_from_command_line, call_from_command_line_with_remaining.
  by rewrite Hparse.
Qed.

(** The parsers of the examples are what the constructor builds. *)
Example init_examples :
  __init__ Examples.compute_a_minus_b None None None false = Ok Examples.a_minus_b_parser
  ∧ __init__ Examples.maybe_negate None None None false = Ok Examples.maybe_negate_parser
  ∧ __init__ Examples.greet_persion None None None false = Ok Examples.greet_parser.
Proof. repeat split; reflexivity. Qed.

Lemma positional_tokens_equal_named_witness :
  parse_arg_string_and_remaining
    (argparse := ArgParseModel.model) Examples.split_blanks Examples.no_dates 0
    Examples.a_minus_b_parser (Tokens ["4"; "5"]) false
  = parse_arg_string_and_remaining
      (argparse := ArgParseModel.model) Examples.split_blanks Examples.no_dates 0
      Examples.a_minus_b_parser (Tokens ["--a=4"; "--b=5"]) false
  ∧ call_from_command_line
      (argparse := ArgParseModel.model) Examples.split_blanks Examples.no_dates 0
      Examples.a_minus_b_parser (Tokens ["4"; "5"])
    = call_from_command_line
        (argparse := ArgParseModel.model) Examples.split_blanks Examples.no_dates 0
        Examples.a_minus_b_parser (Tokens ["--a=4"; "--b=5"]).
Proof.
  apply (positional_tokens_equal_named ArgParseModel.model Examples.split_blanks
           Examples.no_dates 0 Examples.a_minus_b_parser ["4"; "5"] false).
  - repeat constructor.
  - cbn. lia.
Defined.

(** With the model of the flag-parsing library, [4 5] gives [a = 4.0],
    [b = 5.0] and the call returns [-1.0], as the tests expect. *)
Example a_minus_b_positional :
  parse_arg_string_and_remaining
    (argparse := ArgParseModel.model) Examples.split_blanks Examples.no_dates 0
    Examples.a_minus_b_parser (Tokens ["4"; "5"]) false
  = Ok ({[ "a" := VFloat (S754_finite false 4503599627370496 (-50));
           "b" := VFloat (S754_finite false 5629499534213120 (-50)) ]}, [])
  ∧ call_from_command_line
      (argparse := ArgParseModel.model) Examples.split_blanks Examples.no_dates 0
      Examples.a_minus_b_parser (Tokens ["4"; "5"])
    = Ok (VFloat (S754_finite true 4503599627370496 (-52))).
Proof. split; by vm_compute. Qed.

(** ** The sentinel never reaches the callable *)

(** A property of the state that every step of a fold over results
    establishes holds of the state the fold ends in. *)
Lemma foldl_result_invariant {S A : Type} (P : S → Prop)
      (step : Result S → A → Result S) (l : list A) :
  (∀ st a s', (∀ s, st = Ok s → P s) → step st a = Ok s' → P s') →
  ∀ init, (∀ s, init = Ok s → P s) → ∀ s, foldl step init l = Ok s → P s.
Proof.
  intros Hstep. induction l as [|a l IH]; intros init Hinit s; cbn [foldl].
  - apply Hinit.
  - apply IH. intros s'. by apply Hstep.
Qed.

(** A sequence of two steps returns only if both do. *)
Lemma bind_Ok {A B : Type} (r : Result A) (k : A → Result B) (y : B) :
  (x ← r; k x) = Ok y → ∃ x, r = Ok x ∧ k x = Ok y.
Proof. destruct r as [x|e]; [by exists x | discriminate]. Qed.

(** The parser the constructor builds is a parser of the callable given. *)
Lemma init_function (function : Callable.t) arg_converters default_overrides short_names
      raise_deep_exceptions (self : AutoArgParser.t) :
  __init__ function arg_converters default_overrides short_names raise_deep_exceptions
  = Ok self →
  AutoArgParser.function self = function.
Proof.
  unfold __init__. intros Hinit.
  apply bind_Ok in Hinit as (_ & _ & Hinit).
  apply bind_Ok in Hinit as (pairs & _ & Hinit).
  by injection Hinit as <-.
Qed.

(** Calling an [attrs] class gives an instance of it. *)
Lemma attrs_init_record (cls : string) (fields : AttrsFields) (kwargs : gmap string Value)
      (value : Value) :
  attrs_init cls fields kwargs = Ok value → ∃ values, value = VRecord cls values.
Proof.
  unfold attrs_init. case_bool_decide; [|discriminate].
  cbn [mbind result_bind]. destruct (map_result _ fields); [|discriminate].
  intros [= <-]. by eexists.
Qed.

Lemma free_of_NoValue_insert (kwargs : gmap string Value) (name : string) (value : Value) :
  value ≠ VNoValue → Spec.free_of_NoValue kwargs → Spec.free_of_NoValue (<[name := value]> kwargs).
Proof.
  intros Hvalue Hkwargs name'. destruct (decide (name = name')) as [<-|Hne].
  - rewrite lookup_insert_eq. congruence.
  - rewrite lookup_insert_ne by done. apply Hkwargs.
Qed.

(** [kwargs.update(sub_kwargs)] after the filter. *)
Lemma free_of_NoValue_update (sub_kwargs args : gmap string Value) :
  Spec.free_of_NoValue sub_kwargs →
  Spec.free_of_NoValue (sub_kwargs ∪ filter (λ kv, is_NoValue kv.2 = false) args).
Proof.
  intros Hsub name Hname. apply lookup_union_Some_raw in Hname as [Hname|[_ Hname]].
  - by apply (Hsub name).
  - apply map_lookup_filter_Some in Hname as [_ Hname]. discriminate.
Qed.

(** C6: when the parse returns the keyword arguments, none of them is the
    sentinel [NoValue], and these keyword arguments are what the callable is
    invoked with: the entries of the namespace that are the sentinel are
    filtered out, and the values merged in afterwards are the instances the
    nested parsers built. *)
Theorem kwargs_hold_no_NoValue (argparse : ArgParse)
        (shlex_split : string → Result (list string))
        (dateparser_parse : string → Result Value)
        (depth : nat) (self : AutoArgParser.t) (arg_strings : ArgStrings)
        (allow_remaining : bool) (kwargs : gmap string Value) (remaining : list string) :
  parse_arg_string_and_remaining shlex_split dateparser_parse depth self arg_strings
                                 allow_remaining
  = Ok (kwargs, remaining) →
  (∀ name, kwargs !! name ≠ Some VNoValue)
  ∧ call_from_command_line_with_remaining shlex_split dateparser_parse depth self
                                          arg_strings allow_remaining
    = (return_val ← Callable.call (AutoArgParser.function self) kwargs;
       Ok (return_val, remaining)).
Proof.
  intros Hparse. split.
  2: { unfold call_from_command_line_with_remaining. by rewrite Hparse. }
  fold (Spec.free_of_NoValue kwargs).
  assert (∃ sub_kwargs args,
             Spec.free_of_NoValue sub_kwargs
             ∧ kwargs = sub_kwargs ∪ filter (λ kv, is_NoValue kv.2 = false) args)
    as (sub_kwargs & args & Hsub & ->); [|by apply free_of_NoValue_update].
  destruct depth; cbn [parse_arg_string_and_remaining] in Hparse;
    apply bind_Ok in Hparse as (tokens & _ & Hparse);
    apply bind_Ok in Hparse as ([[parser sub_kwargs] direct] & Hfold & Hparse);
    (destruct (if allow_remaining then _ else _) as [[args remaining']|e];
     [|destruct e; try discriminate;
       repeat match type of Hparse with
              | (if ?b then _ else _) = _ => destruct b
              end; discriminate]);
    injection Hparse as <- <-; exists sub_kwargs, args; (split; [|done]);
    revert Hfold;
    apply (foldl_result_invariant (λ '(_, sub_kwargs, _), Spec.free_of_NoValue sub_kwargs));
    try (by intros ? [= <-]);
    intros [[[parser' sub_kwargs'] direct']|e] argspec [[parser'' sub_kwargs''] direct'']
           Hstate Hstep; try discriminate;
    specialize (Hstate _ eq_refl); cbn [mbind result_bind] in Hstep;
    (destruct (attr_has _) as [[cls fields]|];
     [destruct (separate_subargs_under_name _ _ _) as [sub_argstrings direct_arg_strings];
      apply bind_Ok in Hstep as (sub & Hsub & Hstep);
      first [discriminate | apply bind_Ok in Hstep as (value & Hvalue & Hstep)]
     |apply bind_Ok in Hstep as (parser0 & _ & Hstep)]);
    injection Hstep as <- <- <-; try done; try discriminate.
  (* the value a nested parser gives is an instance of the class *)
  apply free_of_NoValue_insert; [|done].
  apply bind_Ok in Hvalue as ([sub_kwargs_inner ?] & _ & Hvalue).
  rewrite (init_function _ _ _ _ _ _ Hsub) in Hvalue.
  apply attrs_init_record in Hvalue as [values ->]. discriminate.
Qed.

(** [compute_a_minus_b] called with [--a=4] only: the namespace of the
    flag-parsing library holds the sentinel for [b], the keyword arguments
    hold [a] alone, and the call is made with them. *)
Lemma kwargs_hold_no_NoValue_witness :
  (∀ name,
      ({[ "a" := VFloat (S754_finite false 4503599627370496 (-50)) ]}
       : gmap string Value) !! name ≠ Some VNoValue)
  ∧ call_from_command_line_with_remaining
      (argparse := ArgParseModel.model) Examples.split_blanks Examples.no_dates 1
      Examples.a_minus_b_parser (Tokens ["--a=4"]) false
    = (return_val ← Callable.call
                      (AutoArgParser.function Examples.a_minus_b_parser)
                      {[ "a" := VFloat (S754_finite false 4503599627370496 (-50)) ]};
       Ok (return_val, [])).
Proof.
  apply (kwargs_hold_no_NoValue ArgParseModel.model Examples.split_blanks
           Examples.no_dates 1 Examples.a_minus_b_parser (Tokens ["--a=4"]) false).
  by vm_compute.
Defined.

(** ** Boolean flags *)

Section Words.
Import PyStr.

Lemma all_chars_spec (f : ascii → bool) : Spec.all_chars f = true → ∀ c, f c = true.
Proof.
  unfold Spec.all_chars. rewrite List.forallb_forall. intros Hall c.
  rewrite <- (ascii_nat_embedding c). apply Hall, List.in_seq.
  pose proof (nat_ascii_bounded c). lia.
Qed.





End Words.

Section FlagDetection.
Context {argparse : ArgParse}.


End FlagDetection.

(** ** The model of the flag-parsing library on an attached value *)

Section AttachedValue.
Import ArgParseModel.



End AttachedValue.








(** The words of the specification in some letter cases, and strings that
    are none of them. *)
Example bool_of_word_examples :
  Spec.bool_of_word <$> ["yes"; "YES"; "Yes"; "true"; "TrUe"; "t"; "T"; "y"; "Y"; "1"]
  = replicate 10 (Some true)
  ∧ Spec.bool_of_word <$> ["no"; "NO"; "false"; "FALSE"; "False"; "f"; "F"; "n"; "N"; "0"]
    = replicate 10 (Some false)
  ∧ Spec.bool_of_word <$> ["2"; "maybe"; "truee"; "ye"; EmptyString; "--"; " yes"]
    = replicate 7 None.
Proof. repeat split; reflexivity. Qed.

(** * Further properties of the code *)

Section BracketedSplitMore.
Import PyStr StringUtils Spec.

Lemma closes_lookup (o c : ascii) :
  bool_decide (opener_to_closer !! o = Some c) = closes o c.
Proof.
  assert (Spec.all_chars
            (λ o, Spec.all_chars
                    (λ c, Bool.eqb (bool_decide (opener_to_closer !! o = Some c))
                                   (closes o c))) = true) as Hall by (by vm_compute).
  apply Bool.eqb_prop. exact (all_chars_spec _ (all_chars_spec _ Hall o) c).
Qed.

Lemma agrees_insert (stack : list ascii) (ob : gmap nat ascii) (k : nat) (c : ascii) :
  (length stack < k)%nat → agrees stack ob → agrees stack (<[k := c]> ob).
Proof.
  induction stack as [|o below IH]; [done|]. cbn [agrees length].
  intros Hk [Ho Hbelow]. split.
  - rewrite lookup_insert_ne by lia. exact Ho.
  - apply IH; [lia|done].
Qed.

(** Whether the generator ends without an exception. *)
Lemma loop_balanced (string delimiter : String.string) (strip_brackets : bool)
      (maxsplit : option Z) (todo : String.string) :
  ∀ current_string n_yields stack opening_bracket,
    agrees stack opening_bracket →
    is_ok (to_list (loop string delimiter strip_brackets maxsplit todo current_string
                         n_yields (length stack) opening_bracket))
    = balanced stack todo.
Proof.
  induction todo as [|c rest IH]; intros cur n stack ob Hagrees.
  - cbn [loop balanced]. by destruct stack.
  - cbn [loop balanced].
    assert (∀ cur n stack ob,
               agrees stack ob →
               is_ok (to_list
                        (if splits_here delimiter maxsplit c (length stack) n
                         then yield cur (loop string delimiter strip_brackets maxsplit
                                              rest EmptyString (n + 1)%Z (length stack) ob)
                         else loop string delimiter strip_brackets maxsplit rest
                                   (cur +:+ chr c) n (length stack) ob))
               = balanced stack rest) as Hsplit.
    { intros cur' n' stack' ob' H'. destruct (splits_here _ _ _ _ _); [|by apply IH].
      rewrite <- (IH EmptyString (n' + 1)%Z stack' ob' H').
      unfold to_list, yield. cbn [snd]. by destruct (snd _). }
    destruct (mem c openers).
    + assert (agrees (c :: stack) (<[S (length stack) := c]> ob)) as Hpush.
      { split; [apply lookup_insert_eq|]. apply agrees_insert; [lia|done]. }
      destruct (strip_brackets && _).
      * exact (IH cur n (c :: stack) _ Hpush).
      * exact (Hsplit cur n (c :: stack) _ Hpush).
    + destruct (mem c closers); [|by apply Hsplit].
      destruct stack as [|o below]; [done|].
      destruct Hagrees as [Ho Hbelow]. cbn [length Nat.eqb] in Ho |- *. rewrite Ho.
      rewrite closes_lookup. destruct (closes o c); [|done].
      cbn [negb andb]. replace (S (length below) - 1)%nat with (length below) by lia.
      destruct (strip_brackets && _); [by apply IH | by apply Hsplit].
Qed.

(** X1: the generator runs to its end without an exception exactly when the
    brackets of the string are balanced, whatever the delimiter, the
    stripping and the limit on the number of splits. *)
Theorem bracketed_split_ok_iff_balanced (string delimiter : String.string)
        (strip_brackets : bool) (maxsplit : option Z) :
  is_ok (to_list (bracketed_split string delimiter strip_brackets maxsplit))
  = balanced [] string.
Proof. by apply (loop_balanced _ _ _ _ string EmptyString 0%Z []). Qed.

End BracketedSplitMore.

Section BracketedSplitParts.
Import PyStr StringUtils Spec.

(** The branches of the loop body: a step that goes on reading, a step
    that ends in the last [if] of the body, or an assertion that fails. *)
Ltac loop_cases IH Hsplit failed :=
  let strip_case := first [destruct (_ && _); [apply IH | apply Hsplit] | apply Hsplit] in
  destruct (mem _ openers); [strip_case|];
  (destruct (mem _ closers); [|apply Hsplit]);
  (destruct (_ =? 0)%nat; [failed|]);
  (destruct (_ !! _); [|failed]);
  (destruct (negb _); [failed|]);
  strip_case.

(** A generator that ends without an exception has yielded at least once. *)
Lemma loop_yields (string delimiter : String.string) (strip_brackets : bool)
      (maxsplit : option Z) (todo : String.string) :
  ∀ current_string n_yields depth opening_bracket parts,
    loop string delimiter strip_brackets maxsplit todo current_string n_yields depth
         opening_bracket = (parts, None) →
    parts ≠ [].
Proof.
  induction todo as [|c rest IH]; intros cur n depth ob parts; cbn [loop].
  - destruct (depth =? 0)%nat; by intros [= <-].
  - assert (∀ cur n depth ob parts,
               (if splits_here delimiter maxsplit c depth n
                then yield cur (loop string delimiter strip_brackets maxsplit rest
                                     EmptyString (n + 1)%Z depth ob)
                else loop string delimiter strip_brackets maxsplit rest (cur +:+ chr c)
                          n depth ob) = (parts, None) →
               parts ≠ []) as Hsplit.
    { intros cur' n' depth' ob' parts'. destruct (splits_here _ _ _ _ _); [|by apply IH].
      unfold yield. by intros [= <- _]. }
    loop_cases IH Hsplit ltac:(done).
Qed.

(** Without stripping, the parts joined by the delimiter are the text read
    so far. *)
Lemma loop_join (string delimiter : String.string) (maxsplit : option Z)
      (todo : String.string) :
  ∀ current_string n_yields depth opening_bracket parts,
    loop string delimiter false maxsplit todo current_string n_yields depth
         opening_bracket = (parts, None) →
    join delimiter parts = current_string +:+ todo.
Proof.
  induction todo as [|c rest IH]; intros cur n depth ob parts; cbn [loop andb].
  - destruct (depth =? 0)%nat; intros [= <-]. cbn [join]. by rewrite append_nil_r.
  - assert (∀ cur n depth ob parts,
               (if splits_here delimiter maxsplit c depth n
                then yield cur (loop string delimiter false maxsplit rest
                                     EmptyString (n + 1)%Z depth ob)
                else loop string delimiter false maxsplit rest (cur +:+ chr c)
                          n depth ob) = (parts, None) →
               join delimiter parts = cur +:+ String c rest) as Hsplit.
    { intros cur' n' depth' ob' parts'.
      destruct (splits_here _ _ _ _ _) eqn:Hhere.
      - destruct (loop _ _ _ _ rest _ _ _ _) as [parts'' e] eqn:Hrest.
        unfold yield. cbn [fst snd]. intros [= <- ->].
        pose proof (loop_yields _ _ _ _ _ _ _ _ _ _ Hrest) as Hne.
        apply IH in Hrest. rewrite append_nil_l in Hrest.
        destruct parts'' as [|p ps]; [done|].
        change (join delimiter (cur' :: p :: ps))
          with (cur' +:+ delimiter +:+ join delimiter (p :: ps)).
        rewrite Hrest. unfold splits_here in Hhere.
        apply andb_true_iff in Hhere as [[_ Hd%String.eqb_eq]%andb_true_iff _].
        by rewrite <- Hd.
      - intros Hrest%IH. by rewrite Hrest, append_assoc. }
    loop_cases IH Hsplit ltac:(done).
Qed.

(** X2: without [strip_brackets], the parts of a split that succeeds give
    the string back when they are joined with the delimiter, with or
    without a limit on the number of splits. *)
Theorem bracketed_split_join (string delimiter : String.string) (maxsplit : option Z)
        (parts : list String.string) :
  to_list (bracketed_split string delimiter false maxsplit) = Ok parts →
  join delimiter parts = string.
Proof.
  unfold to_list, bracketed_split.
  destruct (loop _ _ _ _ _ _ _ _ _) as [parts' [e|]] eqn:Hloop; [done|].
  cbn [fst snd]. intros [= <-]. by apply loop_join in Hloop.
Qed.

Lemma bracketed_split_join_witness :
  join "," ["abc"; "(def,ghi)"; "jkl"] = "abc,(def,ghi),jkl".
Proof.
  apply (bracketed_split_join "abc,(def,ghi),jkl" "," None). reflexivity.
Defined.

(** The number of parts a generator still yields. *)
Lemma loop_maxsplit (string delimiter : String.string) (strip_brackets : bool)
      (maxsplit : Z) (todo : String.string) :
  ∀ current_string n_yields depth opening_bracket,
    (length (fst (loop string delimiter strip_brackets (Some maxsplit) todo current_string
                       n_yields depth opening_bracket))
     <= Z.to_nat (maxsplit - n_yields) + 1)%nat.
Proof.
  induction todo as [|c rest IH]; intros cur n depth ob; cbn [loop].
  - destruct (depth =? 0)%nat; cbn [fst length]; lia.
  - assert (∀ cur n depth ob,
               (length (fst (if splits_here delimiter (Some maxsplit) c depth n
                             then yield cur (loop string delimiter strip_brackets
                                                  (Some maxsplit) rest
                                                  EmptyString (n + 1)%Z depth ob)
                             else loop string delimiter strip_brackets (Some maxsplit)
                                       rest (cur +:+ chr c) n depth ob))
                <= Z.to_nat (maxsplit - n) + 1)%nat) as Hsplit.
    { intros cur' n' depth' ob'. destruct (splits_here _ _ _ _ _) eqn:Hhere; [|apply IH].
      unfold splits_here in Hhere. apply andb_true_iff in Hhere as [_ Hlt%Z.ltb_lt].
      unfold yield. cbn [fst length].
      specialize (IH EmptyString (n' + 1)%Z depth' ob'). lia. }
    loop_cases IH Hsplit ltac:(cbn [fst length]; lia).
Qed.

(** X3: with [maxsplit = m] the generator yields at most [m + 1] parts (one
    part when [m] is negative), whether or not it ends with an exception. *)
Theorem bracketed_split_maxsplit (string delimiter : String.string)
        (strip_brackets : bool) (maxsplit : Z) :
  (length (fst (bracketed_split string delimiter strip_brackets (Some maxsplit)))
   <= Z.to_nat maxsplit + 1)%nat.
Proof.
  unfold bracketed_split.
  pose proof (loop_maxsplit string delimiter strip_brackets maxsplit string EmptyString
                            0%Z 0%nat ∅) as H.
  by rewrite Z.sub_0_r in H.
Qed.

(** [str.split] gives at least one part. *)
Lemma split_cons (sep : ascii) (s : String.string) :
  ∃ part parts, split sep s = part :: parts.
Proof.
  destruct s as [|c rest]; cbn [split]; [by eexists _, _|].
  destruct (Ascii.eqb c sep); [by eexists _, _|].
  destruct (split sep rest); by eexists _, _.
Qed.

(** On a text without brackets the loop splits as [str.split] does. *)
Lemma loop_split (string : String.string) (sep : ascii) (strip_brackets : bool)
      (todo : String.string) :
  all (λ c, negb (is_bracket c)) todo = true →
  ∀ current_string n_yields opening_bracket part parts,
    split sep todo = part :: parts →
    loop string (chr sep) strip_brackets None todo current_string n_yields 0
         opening_bracket
    = ((current_string +:+ part) :: parts, None).
Proof.
  induction todo as [|c rest IH]; intros Hall cur n ob part parts.
  - cbn [loop split Nat.eqb]. intros [= <- <-]. by rewrite append_nil_r.
  - cbn [all] in Hall. apply andb_true_iff in Hall as [Hc Hrest].
    unfold is_bracket in Hc. apply negb_true_iff, orb_false_iff in Hc as [Ho Hcl].
    destruct (split_cons sep rest) as (p & ps & Hsplit).
    cbn [loop split]. rewrite Ho, Hcl, Hsplit.
    unfold splits_here, chr. cbn [Nat.eqb andb String.eqb].
    destruct (Ascii.eqb c sep); cbn [andb]; intros [= <- <-].
    + rewrite (IH Hrest _ _ _ _ _ Hsplit). unfold yield. cbn [fst snd].
      by rewrite append_nil_r, append_nil_l.
    + rewrite (IH Hrest _ _ _ _ _ Hsplit). by rewrite append_assoc.
Qed.

(** X4: on a string without brackets, [bracketed_split] with a
    one-character delimiter and no limit is [str.split]: it never fails,
    and stripping changes nothing. *)
Theorem bracketed_split_without_brackets (string : String.string) (sep : ascii)
        (strip_brackets : bool) :
  all (λ c, negb (is_bracket c)) string = true →
  bracketed_split string (chr sep) strip_brackets None = (split sep string, None).
Proof.
  intros Hall. unfold bracketed_split.
  destruct (split_cons sep string) as (p & ps & Hsplit).
  by rewrite (loop_split _ _ _ _ Hall _ _ _ _ _ Hsplit), Hsplit, append_nil_l.
Qed.

Lemma bracketed_split_without_brackets_witness :
  bracketed_split "a,b,,c" (chr ",") true None = (split "," "a,b,,c", None).
Proof. apply (bracketed_split_without_brackets "a,b,,c" "," true). reflexivity. Defined.

End BracketedSplitParts.

Section ConvertersMore.
Import PyStr StringUtils Spec.
Variable dateparser_parse : string → Result Value.

(** Consuming a generator whose every step leaves something behind. *)
Lemma consume_nonempty {A : Type} (g : Generated)
      (f : list A → string → Result (list A)) (items : list A) :
  (∀ acc s r, f acc s = Ok r → r ≠ []) →
  fst g ≠ [] →
  consume g f [] = Ok items →
  items ≠ [].
Proof.
  intros Hf Hg. unfold consume. destruct g as [parts e]. cbn [fst snd] in *.
  destruct parts as [|p ps _] using rev_ind; [done|].
  rewrite foldl_app. cbn [foldl].
  destruct (foldl _ _ ps) as [acc|]; [|done]. cbn [mbind result_bind].
  destruct (f acc p) as [r|] eqn:Hr; [|done].
  destruct e; [done|]. intros [= <-]. by eapply Hf.
Qed.

(** X5: a sequence, list or set converter never returns an empty
    collection: the empty string is one (empty) element, so the result has
    at least one item or the conversion fails. *)
Theorem sequence_converter_nonempty (type_annotation subtype : TypeAnnotation)
        (string_rep : string) (v : Value) :
  type_annotation = TSequence subtype ∨ type_annotation = TList subtype
  ∨ type_annotation = TSet subtype →
  get_appropriate_type_converter dateparser_parse type_annotation string_rep = Ok v →
  ∃ item items, v = VList (item :: items) ∨ v = VSet (item :: items).
Proof.
  intros Htype Hv.
  assert (fst (bracketed_split string_rep "," true None) ≠ []
          ∨ snd (bracketed_split string_rep "," true None) ≠ None) as Hparts.
  { destruct (bracketed_split string_rep "," true None) as [parts [e|]] eqn:Hsplit;
      [by right|left]. by apply loop_yields in Hsplit. }
  assert (∀ (f : list Value → string → Result (list Value)) items,
             (∀ acc s r, f acc s = Ok r → r ≠ []) →
             consume (bracketed_split string_rep "," true None) f [] = Ok items →
             ∃ item rest, items = item :: rest) as Hconsume.
  { intros f items Hf Hitems. destruct Hparts as [Hparts|Herror].
    - pose proof (consume_nonempty _ f items Hf Hparts Hitems).
      destruct items; [done|by eexists _, _].
    - unfold consume in Hitems. destruct (foldl _ _ _); [|done].
      cbn [mbind result_bind] in Hitems. by destruct (snd _). }
  assert (∀ (conv : Converter) acc s r,
             (v ← conv s; Ok (acc ++ [v])) = Ok r → r ≠ []) as Hlist.
  { intros conv acc s r (x & _ & [= <-])%bind_Ok. by destruct acc. }
  assert (∀ (conv : Converter) acc s r,
             (v ← conv s; PyDict.add acc v) = Ok r → r ≠ []) as Hset.
  { intros conv acc s r (x & _ & Hr)%bind_Ok. unfold PyDict.add in Hr.
    destruct (PyDict.hash_key x); [|done]. injection Hr as <-.
    destruct (existsb _ acc) eqn:Hin; by destruct acc. }
  destruct Htype as [->|[->| ->]]; cbn [get_appropriate_type_converter] in Hv;
    unfold convert_sequence_string_list, convert_sequence_string_set in Hv;
    apply bind_Ok in Hv as (items & Hitems & [= <-]).
  - apply (Hconsume _ _ (Hlist _)) in Hitems as (item & rest & ->).
    exists item, rest. by left.
  - apply (Hconsume _ _ (Hlist _)) in Hitems as (item & rest & ->).
    exists item, rest. by left.
  - apply (Hconsume _ _ (Hset _)) in Hitems as (item & rest & ->).
    exists item, rest. by right.
Qed.

Lemma all_app (p : ascii → bool) (a b : string) :
  all p (a +:+ b) = all p a && all p b.
Proof.
  induction a as [|c a IH]; [done|]. rewrite append_cons. cbn [all].
  by rewrite IH, andb_assoc.
Qed.

(** The parts hold characters of the text only. *)
Lemma loop_parts_chars (p : ascii → bool) (string delimiter : String.string)
      (strip_brackets : bool) (maxsplit : option Z) (todo : String.string) :
  ∀ current_string n_yields depth opening_bracket,
    all p current_string = true →
    all p todo = true →
    Forall (λ part, all p part = true)
           (fst (loop string delimiter strip_brackets maxsplit todo current_string
                      n_yields depth opening_bracket)).
Proof.
  induction todo as [|c rest IH]; intros cur n depth ob Hcur Htodo; cbn [loop].
  - destruct (depth =? 0)%nat; by repeat constructor.
  - cbn [all] in Htodo. apply andb_true_iff in Htodo as [Hc Hrest].
    assert (∀ cur n depth ob,
               all p cur = true →
               Forall (λ part, all p part = true)
                      (fst (if splits_here delimiter maxsplit c depth n
                            then yield cur (loop string delimiter strip_brackets maxsplit
                                                 rest EmptyString (n + 1)%Z depth ob)
                            else loop string delimiter strip_brackets maxsplit rest
                                      (cur +:+ chr c) n depth ob))) as Hsplit.
    { intros cur' n' depth' ob' Hcur'. destruct (splits_here _ _ _ _ _).
      - unfold yield. cbn [fst]. constructor; [done|]. by apply IH.
      - apply IH; [|done]. rewrite all_app, Hcur'. cbn [all chr]. by rewrite Hc. }
    destruct (mem c openers).
    { destruct (_ && _); [by apply IH | by apply Hsplit]. }
    destruct (mem c closers); [|by apply Hsplit].
    destruct (_ =? 0)%nat; [constructor|].
    destruct (_ !! _); [|constructor].
    destruct (negb _); [constructor|].
    destruct (_ && _); [by apply IH | by apply Hsplit].
Qed.

(** A text without the delimiter is not split. *)
Lemma loop_no_delimiter (sep : ascii) (string : String.string) (strip_brackets : bool)
      (maxsplit : option Z) (todo : String.string) :
  ∀ current_string n_yields depth opening_bracket,
    all (λ c, negb (Ascii.eqb c sep)) todo = true →
    (length (fst (loop string (chr sep) strip_brackets maxsplit todo current_string
                       n_yields depth opening_bracket)) <= 1)%nat.
Proof.
  induction todo as [|c rest IH]; intros cur n depth ob Htodo; cbn [loop].
  - destruct (depth =? 0)%nat; cbn; lia.
  - cbn [all] in Htodo. apply andb_true_iff in Htodo as [Hc Hrest].
    assert (∀ depth n, splits_here (chr sep) maxsplit c depth n = false) as Hhere.
    { intros depth' n'. unfold splits_here, chr. cbn [String.eqb].
      apply negb_true_iff in Hc. rewrite Hc. by rewrite andb_false_r. }
    rewrite !Hhere.
    repeat match goal with
           | |- context [if ?b then _ else _] => destruct b
           | |- context [match ?o with Some _ => _ | None => _ end] => destruct o
           end; try (cbn; lia); by apply IH.
Qed.

(** The pairs the mapping converter collects for parts without a colon. *)
Lemma pairs_without_colon (parts : list string) :
  Forall (λ part, all (λ c, negb (Ascii.eqb c ":")) part = true) parts →
  ∀ acc pairs,
    foldl (λ racc substr,
             pairs ← racc;
             p ← to_list (bracketed_split substr ":" true (Some 1%Z));
             Ok (pairs ++ [p]))
          (Ok acc) parts = Ok pairs →
    ∃ new, pairs = acc ++ new ∧ length new = length parts
           ∧ Forall (λ p, (length p <= 1)%nat) new.
Proof.
  induction 1 as [|part parts Hpart _ IH]; intros acc pairs; cbn [foldl].
  - intros [= <-]. exists []. by rewrite app_nil_r.
  - cbn [mbind result_bind].
    destruct (to_list _) as [p|] eqn:Hp; cbn [mbind result_bind].
    + intros (new & -> & Hlen & Hnew)%IH. exists (p :: new).
      rewrite <- app_assoc. repeat split; [by cbn; rewrite Hlen|].
      constructor; [|done]. unfold to_list in Hp. destruct (snd _); [done|].
      injection Hp as <-. by apply loop_no_delimiter.
    + intros Hfold. exfalso. clear -Hfold.
      induction parts as [|? ? IHparts]; [done|]. by apply IHparts.
Qed.

(** X6: the mapping converter never returns for a string without a colon
    (the empty string included, so the empty mapping cannot be written):
    it fails before any key or value is converted. *)
Theorem mapping_converter_needs_colon (key_type value_type : TypeAnnotation)
        (string_rep : string) :
  mem ":" string_rep = false →
  is_ok (get_appropriate_type_converter dateparser_parse (TMapping key_type value_type)
                                        string_rep) = false
  ∧ is_ok (get_appropriate_type_converter dateparser_parse (TDict key_type value_type)
                                          string_rep) = false.
Proof.
  intros Hcolon.
  assert (all (λ c, negb (Ascii.eqb c ":")) string_rep = true) as Hall.
  { clear -Hcolon. induction string_rep as [|c rest IH]; [done|].
    cbn [mem all] in *. rewrite Ascii.eqb_sym.
    destruct (Ascii.eqb ":" c); [done|]. by apply IH. }
  assert (∀ key_converter val_converter,
             is_ok (convert_mapping_string key_converter val_converter string_rep)
             = false) as Hmapping; [|by split; apply Hmapping].
  intros key_converter val_converter. unfold convert_mapping_string, consume.
  destruct (bracketed_split string_rep "," false None) as [parts e] eqn:Hsplit.
  cbn [fst snd].
  destruct (foldl _ _ parts) as [pairs|] eqn:Hfold; [|done].
  cbn [mbind result_bind]. destruct e as [e|]; [done|]. cbn [mbind result_bind].
  pose proof (loop_yields _ _ _ _ _ _ _ _ _ _ Hsplit) as Hne.
  pose proof (loop_parts_chars (λ c, negb (Ascii.eqb c ":")) string_rep "," false None
                               string_rep EmptyString 0%Z 0%nat ∅ eq_refl Hall) as Hparts.
  fold (bracketed_split string_rep "," false None) in Hparts.
  rewrite Hsplit in Hparts. cbn [fst] in Hparts.
  apply (pairs_without_colon _ Hparts) in Hfold as (new & -> & Hlen & Hnew).
  destruct new as [|p new]; [by destruct parts|].
  apply Forall_cons in Hnew as [Hp _]. cbn [app forallb].
  destruct (length p =? 2)%nat eqn:Hp2; [apply Nat.eqb_eq in Hp2; lia|done].
Qed.

Lemma map_result_length {A B : Type} (f : A → Result B) (xs : list A) (ys : list B) :
  map_result f xs = Ok ys → length ys = length xs.
Proof.
  revert ys. induction xs as [|x xs IH]; intros ys; cbn [map_result].
  - by intros [= <-].
  - intros (y & _ & (ys' & Hys & [= <-])%bind_Ok)%bind_Ok. cbn [length].
    by rewrite (IH ys' Hys).
Qed.

(** X7: a tuple converter that returns gives a tuple with one item for each
    type argument, and the string had as many comma-separated parts,
    brackets or not. *)
Theorem tuple_converter_length (subtypes : list TypeAnnotation) (string_rep : string)
        (v : Value) :
  get_appropriate_type_converter dateparser_parse (TTuple subtypes) string_rep = Ok v →
  ∃ items, v = VTuple items
           ∧ length items = length subtypes
           ∧ length (split "," string_rep) = length subtypes.
Proof.
  cbn [get_appropriate_type_converter]. unfold convert_tuple_string.
  destruct (length subtypes =? length (split "," string_rep))%nat eqn:Hlen; [|done].
  apply Nat.eqb_eq in Hlen. cbn [negb].
  intros (items & Hitems & [= <-])%bind_Ok. exists items.
  apply map_result_length in Hitems.
  rewrite length_zip, length_map in Hitems. repeat split; lia.
Qed.

End ConvertersMore.

Lemma sequence_converter_nonempty_witness :
  ∃ item items,
    VList [VStr EmptyString] = VList (item :: items)
    ∨ VList [VStr EmptyString] = VSet (item :: items).
Proof.
  apply (sequence_converter_nonempty (λ _, Ok VNone) (TList TStr) TStr EmptyString).
  - right. by left.
  - reflexivity.
Defined.

Lemma mapping_converter_needs_colon_witness :
  is_ok (get_appropriate_type_converter (λ _, Ok VNone) (TMapping TStr TInt)
                                        EmptyString) = false
  ∧ is_ok (get_appropriate_type_converter (λ _, Ok VNone) (TDict TStr TInt)
                                          EmptyString) = false.
Proof.
  apply (mapping_converter_needs_colon (λ _, Ok VNone) TStr TInt EmptyString).
  reflexivity.
Defined.

Section GuessingMore.
Import PyStr.

(** X8: [parse_string_guessing_type] raises nothing but the [ValueError] of
    [int] or [float], and only for a string that it takes for a number;
    its call of [str2bool] cannot fail. *)
Theorem parse_string_guessing_type_errors (string : String.string) (e : PyError) :
  parse_string_guessing_type string = Raise e →
  (∃ message, e = ValueError message)
  ∧ (isnumeric (strip " " string)
     || all (λ s, mem s "1234567890.") (lstrip "-" (strip " " string))) = true.
Proof.
  unfold parse_string_guessing_type.
  destruct (isnumeric _).
  { unfold PyNum.int. destruct (PyNum.parse_int _); [done|].
    intros [= <-]. split; [by eexists|done]. }
  destruct (all _ _).
  { unfold PyNum.float. destruct (PyNum.parse_float _); [done|].
    intros [= <-]. split; [by eexists|done]. }
  destruct (String.eqb _ "none"); [done|].
  case_bool_decide as Hword; [|by destruct (_ || _)].
  unfold str2bool.
  apply elem_of_cons in Hword as [->|Hword]; [done|].
  apply elem_of_cons in Hword as [->|Hword]; [done|].
  by apply elem_of_nil in Hword.
Qed.

Lemma parse_string_guessing_type_errors_witness :
  (∃ message, ValueError "could not convert string to float: 1.2.3" = ValueError message)
  ∧ (isnumeric (strip " " "1.2.3")
     || all (λ s, mem s "1234567890.") (lstrip "-" (strip " " "1.2.3"))) = true.
Proof.
  apply (parse_string_guessing_type_errors "1.2.3"). reflexivity.
Defined.

End GuessingMore.

Lemma tuple_converter_length_witness :
  ∃ items, VTuple [VInt 1; VStr "a"] = VTuple items
           ∧ length items = length [TInt; TStr]
           ∧ length (PyStr.split "," "1,a") = length [TInt; TStr].
Proof.
  apply (tuple_converter_length (λ _, Ok VNone) [TInt; TStr] "1,a"). reflexivity.
Defined.

Section PromotionMore.
Import Spec.

Lemma promote_loop_mixed (tokens : list string) :
  ∀ (names before rest : list string),
    Forall (λ t, is_argument_key t = false) tokens →
    (∀ key, head rest = Some key → is_argument_key key = true) →
    promote_loop (length before) (zip (tokens ++ rest) names) (before ++ tokens ++ rest)
    = before ++ named names tokens ++ drop (length names) tokens ++ rest.
Proof.
  induction tokens as [|t ts IH]; intros names before rest Hkeys Hrest.
  - destruct names as [|n ns], rest as [|key rest]; try done.
    cbn [app zip zip_with promote_loop]. by rewrite (Hrest key eq_refl).
  - destruct names as [|n ns]; [done|].
    apply Forall_cons in Hkeys as [Ht Hts].
    cbn [app zip zip_with promote_loop named length drop]. rewrite Ht.
    rewrite insert_app_r_alt, Nat.sub_diag by lia.
    change (<[0%nat := "--" +:+ n +:+ "=" +:+ t]> (t :: ts ++ rest))
      with (("--" +:+ n +:+ "=" +:+ t) :: ts ++ rest).
    replace (S (length before)) with (length (before ++ ["--" +:+ n +:+ "=" +:+ t]))
      by (rewrite length_app; cbn; lia).
    rewrite (cons_middle _ before (ts ++ rest)), app_assoc.
    rewrite (IH ns) by done. by rewrite <- app_assoc.
Qed.

Lemma promote_mixed (positional rest names : list string) :
  Forall (λ t, is_argument_key t = false) positional →
  (∀ key, head rest = Some key → is_argument_key key = true) →
  promote (positional ++ rest) names
  = named names positional ++ drop (length names) positional ++ rest.
Proof.
  intros Hpositional Hrest.
  exact (promote_loop_mixed positional names [] rest Hpositional Hrest).
Qed.

(** X9: what the promotion does to any token list.  The tokens before the
    first key token are positional: as many of them as there are parameters
    become [--<name>=<token>], in order; positional tokens beyond the last
    parameter and everything from the first key token on stay as they
    are. *)
Theorem promote_characterized (positional rest names : list string) :
  Forall (λ t, is_argument_key t = false) positional →
  (∀ key, head rest = Some key → is_argument_key key = true) →
  promote (positional ++ rest) names
  = named names positional ++ drop (length names) positional ++ rest.
Proof.
  intros Hpositional Hrest.
  exact (promote_loop_mixed positional names [] rest Hpositional Hrest).
Qed.

Lemma promote_characterized_witness :
  promote (["4"; "5"; "6"] ++ ["--c=1"; "7"]) ["a"; "b"]
  = named ["a"; "b"] ["4"; "5"; "6"] ++ drop (length ["a"; "b"]) ["4"; "5"; "6"]
    ++ ["--c=1"; "7"].
Proof.
  apply (promote_characterized ["4"; "5"; "6"] ["--c=1"; "7"] ["a"; "b"]).
  - by repeat constructor.
  - by intros key [= <-].
Defined.

(** Every token list is positional tokens followed by nothing or by a key
    token and what comes after it. *)
Lemma positional_prefix (tokens : list string) :
  ∃ positional rest,
    tokens = positional ++ rest
    ∧ Forall (λ t, is_argument_key t = false) positional
    ∧ (∀ key, head rest = Some key → is_argument_key key = true).
Proof.
  induction tokens as [|t ts (positional & rest & -> & Hpositional & Hrest)].
  - by exists [], [].
  - destruct (is_argument_key t) eqn:Ht.
    + exists [], (t :: positional ++ rest). repeat split; [done|].
      by intros key [= <-].
    + exists (t :: positional), rest. repeat split; [by constructor|done].
Qed.

(** X10: promoting twice is promoting once, and the promotion keeps the
    number of tokens. *)
Theorem promote_idempotent (tokens names : list string) :
  promote (promote tokens names) names = promote tokens names
  ∧ length (promote tokens names) = length tokens.
Proof.
  destruct (positional_prefix tokens) as (positional & rest & -> & Hpositional & Hrest).
  rewrite (promote_mixed _ _ _ Hpositional Hrest). split.
  - destruct names as [|n ns].
    { exact (promote_mixed positional rest [] Hpositional Hrest). }
    destruct positional as [|t ts].
    { exact (promote_mixed [] rest (n :: ns) (Forall_nil_2 _) Hrest). }
    apply (promote_mixed [] _ (n :: ns) (Forall_nil_2 _)).
    intros key [= <-]. apply is_argument_key_named.
  - unfold named. rewrite !length_app, length_zip_with, length_drop. lia.
Qed.

End PromotionMore.

Section RouterMore.
Import Spec.
Variables (name : string) (short_name : option string).

(** The router in terms of the routes of the tokens. *)
Lemma separate_by_routes (args : list string) :
  separate_subargs_under_name args name short_name
  = (omap sub_token (routes name short_name None args),
     omap remaining_token (routes name short_name None args)).
Proof.
  unfold separate_subargs_under_name.
  pose proof (separate_loop name short_name args [] [] None) as Hloop.
  cbn [app] in Hloop. rewrite <- Hloop.
  by destruct (foldl _ _ args) as [[keepers remainders] last].
Qed.

Lemma routes_without_sub_keys (args : list string) :
  ∀ previous,
    previous ≫= sub_key name short_name = None →
    Forall (λ t, sub_key name short_name t = None) args →
    omap sub_token (routes name short_name previous args) = []
    ∧ omap remaining_token (routes name short_name previous args) = args.
Proof.
  induction args as [|t ts IH]; intros previous Hprevious Hargs; [done|].
  apply Forall_cons in Hargs as [Ht Hts].
  cbn [routes omap list_omap]. unfold route. rewrite Ht, Hprevious.
  rewrite bool_decide_eq_false_2 by (by intros [? ?]). rewrite andb_false_r.
  cbn [sub_token remaining_token].
  destruct (IH (Some t) Ht Hts) as [-> ->]. done.
Qed.

Lemma remaining_without_sub_keys (args : list string) :
  ∀ previous,
    Forall (λ t, sub_key name short_name t = None)
           (omap remaining_token (routes name short_name previous args)).
Proof.
  induction args as [|t ts IH]; intros previous; [constructor|].
  cbn [routes omap list_omap]. unfold route.
  destruct (sub_key name short_name t) eqn:Ht; cbn [remaining_token]; [apply IH|].
  destruct (_ && _); cbn [remaining_token]; [apply IH|].
  constructor; [done|apply IH].
Qed.

Lemma routes_conserve (args : list string) :
  ∀ previous,
    sublist (omap remaining_token (routes name short_name previous args)) args
    ∧ (length (omap sub_token (routes name short_name previous args))
       + length (omap remaining_token (routes name short_name previous args))
       = length args)%nat.
Proof.
  induction args as [|t ts IH]; intros previous; [by split|].
  cbn [routes omap list_omap]. destruct (IH (Some t)) as [Hsub Hlen].
  unfold route.
  destruct (sub_key name short_name t); cbn [sub_token remaining_token length].
  { split; [by apply sublist_cons|lia]. }
  destruct (_ && _); cbn [sub_token remaining_token length].
  - split; [by apply sublist_cons|lia].
  - split; [by apply sublist_skip|lia].
Qed.

End RouterMore.

(** X11: a token list in which no token is a key [--<name>.<rest>] or
    [-<short_name>.<rest>] is left as it is, and nothing goes to the
    sub-parser. *)
Theorem separate_subargs_under_name_untouched (args : list string) (name : string)
        (short_name : option string) :
  Forall (λ t, Spec.sub_key name short_name t = None) args →
  separate_subargs_under_name args name short_name = ([], args).
Proof.
  intros Hargs. rewrite separate_by_routes.
  by destruct (routes_without_sub_keys name short_name args None eq_refl Hargs)
    as [-> ->].
Qed.

Lemma separate_subargs_under_name_untouched_witness :
  separate_subargs_under_name ["--greeting"; "hello"; "--personal.x"; "-3"] "person"
                              (Some "p")
  = ([], ["--greeting"; "hello"; "--personal.x"; "-3"]).
Proof.
  apply separate_subargs_under_name_untouched. by repeat constructor.
Defined.

(** X12: separating again what the router left finds nothing more: the
    remaining tokens hold no key of the sub-namespace. *)
Theorem separate_subargs_under_name_idempotent (args : list string) (name : string)
        (short_name : option string) :
  let remainders := (separate_subargs_under_name args name short_name).2 in
  separate_subargs_under_name remainders name short_name = ([], remainders).
Proof.
  intros remainders. subst remainders. rewrite (separate_by_routes name short_name args).
  cbn [snd]. rewrite separate_by_routes.
  pose proof (remaining_without_sub_keys name short_name args None) as Hremaining.
  by destruct (routes_without_sub_keys name short_name _ None eq_refl Hremaining)
    as [-> ->].
Qed.

(** X13: the router loses and invents no token: the remaining tokens are a
    sub-list of the input, in its order, and the two outputs together have
    as many tokens as the input. *)
Theorem separate_subargs_under_name_conserves (args : list string) (name : string)
        (short_name : option string) :
  let '(keepers, remainders) := separate_subargs_under_name args name short_name in
  sublist remainders args
  ∧ (length keepers + length remainders = length args)%nat.
Proof.
  rewrite separate_by_routes. apply routes_conserve.
Qed.

(** X14: the parser object a successful construction gives: its arguments
    are the positional parameters of the callable in declaration order
    (without the first for a method or a class), each with the annotation
    of its name, and an override for a name is the default of that
    argument whatever the callable declares. *)
Theorem init_args (function : Callable.t)
        (arg_converters : option (gmap string Converter))
        (default_overrides : option (gmap string Value))
        (short_names : option (gmap string string)) (raise_deep_exceptions : bool)
        (self : AutoArgParser.t) :
  __init__ function arg_converters default_overrides short_names raise_deep_exceptions
  = Ok self →
  let spec := Callable.getfullargspec function in
  ArgSpec.name <$> AutoArgParser._args self
  = (if Callable.ismethod function || Callable.isclass function
     then drop 1 (FullArgSpec.args spec) else FullArgSpec.args spec)
  ∧ Forall (λ argspec,
              ArgSpec.type argspec
              = FullArgSpec.annotations spec !! ArgSpec.name argspec
              ∧ ∀ overrides v,
                  default_overrides = Some overrides →
                  overrides !! ArgSpec.name argspec = Some v →
                  ArgSpec.default argspec = v)
           (AutoArgParser._args self).
Proof.
  intros Hinit spec. unfold __init__ in Hinit.
  apply bind_Ok in Hinit as (_ & _ & Hinit).
  apply bind_Ok in Hinit as (pairs & Hpairs & Hinit).
  injection Hinit as <-. cbn [AutoArgParser._args].
  unfold zip_equal in Hpairs. destruct (_ =? _)%nat eqn:Hlen; [|done].
  apply Nat.eqb_eq in Hlen. injection Hpairs as <-.
  match goal with
  | |- context [?f <$> zip ?names ?defaults] =>
      assert (ArgSpec.name <$> (f <$> zip names defaults) = names) as Hnames;
      [|assert (Forall (λ argspec,
                          ArgSpec.type argspec
                          = FullArgSpec.annotations spec !! ArgSpec.name argspec
                          ∧ ∀ overrides v,
                              default_overrides = Some overrides →
                              overrides !! ArgSpec.name argspec = Some v →
                              ArgSpec.default argspec = v)
                       (f <$> zip names defaults)) as Hall]
  end.
  - rewrite <- list_fmap_compose.
    erewrite list_fmap_ext; [apply fst_zip; by rewrite <- Hlen|].
    by intros i [name default] _.
  - apply Forall_fmap, Forall_forall. intros [name default] _.
    cbn [ArgSpec.name ArgSpec.type ArgSpec.default compose]. split; [done|].
    intros overrides v -> Hv. by rewrite Hv.
  - destruct (_ || _); [|done].
    split; [by rewrite fmap_drop, Hnames | by apply Forall_drop].
Qed.

Lemma init_args_witness :
  let spec := Callable.getfullargspec Examples.maybe_negate in
  ArgSpec.name <$>
    [ArgSpec.make "number" (Some TInt) VNoValue None;
     ArgSpec.make "negate" (Some TBool) (VBool true) None]
  = (if Callable.ismethod Examples.maybe_negate || Callable.isclass Examples.maybe_negate
     then drop 1 (FullArgSpec.args spec) else FullArgSpec.args spec)
  ∧ Forall (λ argspec,
              ArgSpec.type argspec
              = FullArgSpec.annotations spec !! ArgSpec.name argspec
              ∧ ∀ overrides v,
                  Some ({[ "negate" := VBool true ]} : gmap string Value) = Some overrides →
                  overrides !! ArgSpec.name argspec = Some v →
                  ArgSpec.default argspec = v)
           [ArgSpec.make "number" (Some TInt) VNoValue None;
            ArgSpec.make "negate" (Some TBool) (VBool true) None].
Proof.
  apply (init_args Examples.maybe_negate None (Some {[ "negate" := VBool true ]}) None false
                   (Examples.parser_of
                      Examples.maybe_negate
                      [ArgSpec.make "number" (Some TInt) VNoValue None;
                       ArgSpec.make "negate" (Some TBool) (VBool true) None])).
  reflexivity.
Defined.

Section PipelineMore.
Context {argparse : ArgParse}.
Variable shlex_split : string → Result (list string).
Variable dateparser_parse : string → Result Value.
Import Spec.

(** X15: without [allow_remaining] a parse that returns leaves no token
    over, so the report of unconsumed arguments that follows in the source
    is never printed. *)
Theorem nothing_remains_without_allow_remaining (depth : nat) (self : AutoArgParser.t)
        (arg_strings : ArgStrings) (kwargs : gmap string Value)
        (remaining : list string) :
  parse_arg_string_and_remaining shlex_split dateparser_parse depth self arg_strings false
  = Ok (kwargs, remaining) →
  remaining = [].
Proof.
  intros Hparse.
  destruct depth; cbn [parse_arg_string_and_remaining] in Hparse;
    apply bind_Ok in Hparse as (tokens & _ & Hparse);
    apply bind_Ok in Hparse as ([[parser sub_kwargs] direct] & _ & Hparse);
    (destruct (parse_args parser direct) as [args|e]; cbn [mbind result_bind] in Hparse;
     [by injection Hparse as _ <-|]);
    destruct e; try discriminate;
    repeat match type of Hparse with
           | (if ?b then _ else _) = _ => destruct b
           end; discriminate.
Qed.

(** A sequence of two steps raises what the first raises, or what the
    second raises on the result of the first. *)
Lemma bind_Raise {A B : Type} (r : Result A) (k : A → Result B) (e : PyError) :
  (x ← r; k x) = Raise e → r = Raise e ∨ ∃ x, r = Ok x ∧ k x = Raise e.
Proof. destruct r as [x|e']; intros H; [right; by exists x | left; by injection H as ->]. Qed.

(** An exception that ends a fold over results was raised by a step. *)
Lemma foldl_result_error {S A : Type} (P : PyError → Prop)
      (step : Result S → A → Result S) (l : list A) :
  (∀ e a, step (Raise e) a = Raise e) →
  (∀ st a e, step (Ok st) a = Raise e → P e) →
  ∀ init, (∀ e, init = Raise e → P e) → ∀ e, foldl step init l = Raise e → P e.
Proof.
  intros Hraise Hstep. induction l as [|a l IH]; intros init Hinit e; cbn [foldl].
  - apply Hinit.
  - apply IH. intros e'. destruct init as [st|e0]; [apply Hstep|].
    rewrite Hraise. apply Hinit.
Qed.

Lemma init_error (function : Callable.t) arg_converters default_overrides short_names
      raise_deep_exceptions (e : PyError) :
  __init__ function arg_converters default_overrides short_names raise_deep_exceptions
  = Raise e →
  only_help_exit e.
Proof.
  unfold __init__. intros [Hkeys|(_ & _ & Hrest)]%bind_Raise.
  - intros code out ->.
    repeat match type of Hkeys with
           | context [match ?x with _ => _ end] => destruct x; try discriminate
           end.
  - apply bind_Raise in Hrest as [Hzip|(? & _ & ?)]; [|done].
    unfold zip_equal in Hzip. destruct (_ =? _)%nat; [done|]. by injection Hzip as <-.
Qed.

(** X16: an exit of the flag-parsing library with a non-zero code never
    leaves [parse_arg_string_and_remaining]: it is turned into an
    [AutoArgParserError], at every nesting depth; only the exit with code 0
    of a help request passes.  This holds when [add_argument] and
    [shlex.split] themselves raise no such exit. *)
Theorem error_exits_never_escape (depth : nat) :
  (∀ parser definition e, add_argument parser definition = Raise e → only_help_exit e) →
  (∀ s e, shlex_split s = Raise e → only_help_exit e) →
  ∀ (self : AutoArgParser.t) (arg_strings : ArgStrings) (allow_remaining : bool)
    (e : PyError),
    parse_arg_string_and_remaining shlex_split dateparser_parse depth self arg_strings
                                   allow_remaining = Raise e →
    only_help_exit e.
Proof.
  intros Hadd Hshlex.
  assert (∀ e : PyError, (∀ code out, e ≠ SystemExit code out) → only_help_exit e)
    as Hother by (intros e He code out ->; by destruct (He code out)).
  assert (∀ (self : AutoArgParser.t) tokens parsed e,
             match parsed : Result (gmap string Value * list string) with
             | Raise (SystemExit code output) =>
                 if (code =? 0)%Z then Raise (SystemExit code output)
                 else if AutoArgParser._raise_deep_exceptions self
                      then Raise (AutoArgParserError [FExit code])
                      else Raise (feeding_error tokens (AutoArgParser.function self)
                                                output)
             | Raise e => Raise e
             | Ok (args, remaining) =>
                 Ok ((∅ : gmap string Value), remaining)
             end = Raise e → only_help_exit e) as Hparsed.
  { intros self tokens [[args remaining]|e'] e; [done|].
    destruct e'; try (intros [= <-]; by apply Hother).
    destruct (code =? 0)%Z eqn:Hcode.
    - intros [= <-] code' out' [= <- <-]. by apply Z.eqb_eq.
    - destruct (AutoArgParser._raise_deep_exceptions self);
        intros [= <-]; by apply Hother. }
  induction depth as [|depth IH]; intros self arg_strings allow_remaining e Hparse;
    cbn [parse_arg_string_and_remaining] in Hparse.
  all: apply bind_Raise in Hparse as [Htokens|(tokens & _ & Hparse)];
    [destruct arg_strings; [by eapply Hshlex|done]|].
  all: apply bind_Raise in Hparse as [Hfold|([[parser sub_kwargs] direct] & _ & Hparse)].
  all: try (destruct (if allow_remaining then _ else _) as [[args remaining]|e'];
            [discriminate Hparse|exact (Hparsed self _ (Raise e') e Hparse)]).
  all: revert e Hfold; apply foldl_result_error; [done| |done].
  all: intros [[parser sub_kwargs] direct] argspec e; cbn [mbind result_bind].
  all: destruct (attr_has _) as [[cls fields]|];
    [destruct (separate_subargs_under_name _ _ _) as [sub_argstrings direct'];
     intros [Hinit|(sub & Hsub & Hvalue)]%bind_Raise; [by eapply init_error|]
    |intros [Hadded|(? & _ & ?)]%bind_Raise; [by eapply Hadd|done]].
  - apply Hother. intros code out. by destruct e.
  - apply bind_Raise in Hvalue as [Hvalue|(? & _ & ?)]; [|done].
    apply bind_Raise in Hvalue as [Hnested|([kwargs ?] & _ & Hcall)];
      [by eapply IH|].
    rewrite (init_function _ _ _ _ _ _ Hsub) in Hcall. cbn [Callable.call attrs_class] in Hcall.
    apply Hother. intros code out ->. unfold attrs_init in Hcall.
    case_bool_decide; [|done].
    by apply bind_Raise in Hcall as [Hcall|(? & _ & ?)];
      [clear -Hcall; induction fields as [|[[name t] [d|]] fields IHf];
       cbn [map_result mbind result_bind] in Hcall;
       repeat (destruct (_ !! _) || destruct (map_result _ fields)); try done;
       apply IHf|].
Qed.

End PipelineMore.

Lemma nothing_remains_without_allow_remaining_witness :
  parse_arg_string_and_remaining
    (argparse := ArgParseModel.model) Examples.split_blanks Examples.no_dates 0
    Examples.a_minus_b_parser (Tokens ["4"; "5"]) false
  = Ok ({[ "a" := VFloat (S754_finite false 4503599627370496 (-50));
           "b" := VFloat (S754_finite false 5629499534213120 (-50)) ]}, [])
  ∧ ([] : list string) = [].
Proof.
  assert (parse_arg_string_and_remaining
            (argparse := ArgParseModel.model) Examples.split_blanks Examples.no_dates 0
            Examples.a_minus_b_parser (Tokens ["4"; "5"]) false
          = Ok ({[ "a" := VFloat (S754_finite false 4503599627370496 (-50));
                   "b" := VFloat (S754_finite false 5629499534213120 (-50)) ]}, []))
    as Hparse by (by vm_compute).
  split; [exact Hparse|].
  exact (nothing_remains_without_allow_remaining
           (argparse := ArgParseModel.model) Examples.split_blanks Examples.no_dates 0
           Examples.a_minus_b_parser (Tokens ["4"; "5"]) _ [] Hparse).
Defined.

(** The model of the flag-parsing library registers an option or raises
    one of the library's own exceptions. *)
Lemma model_add_argument_error (parser : ArgParseModel.Parser) (definition : Flag.Def)
      (e : PyError) :
  ArgParseModel.add_argument parser definition = Raise e → Spec.only_help_exit e.
Proof.
  unfold ArgParseModel.add_argument, ArgParseModel.register.
  intros He code out ->.
  repeat match type of He with
         | context [match ?x with _ => _ end] => destruct x; try discriminate
         end.
Qed.

Lemma split_blanks_error (s : string) (e : PyError) :
  Examples.split_blanks s = Raise e → Spec.only_help_exit e.
Proof. discriminate. Qed.

Lemma error_exits_never_escape_witness :
  parse_arg_string_and_remaining
    (argparse := ArgParseModel.model) Examples.split_blanks Examples.no_dates 0
    Examples.maybe_negate_parser (Tokens ["--number=3"; "--help"]) false
  = Raise (SystemExit 0 EmptyString)
  ∧ Spec.only_help_exit (SystemExit 0 EmptyString).
Proof.
  assert (parse_arg_string_and_remaining
            (argparse := ArgParseModel.model) Examples.split_blanks Examples.no_dates 0
            Examples.maybe_negate_parser (Tokens ["--number=3"; "--help"]) false
          = Raise (SystemExit 0 EmptyString)) as Hparse by (by vm_compute).
  split; [exact Hparse|].
  exact (error_exits_never_escape
           (argparse := ArgParseModel.model) Examples.split_blanks Examples.no_dates 0
           model_add_argument_error split_blanks_error
           Examples.maybe_negate_parser (Tokens ["--number=3"; "--help"]) false _ Hparse).
Defined.

Section IndentString.
Import PyStr StringUtils.

(** Splitting a text that starts with a piece without the separator. *)
Lemma split_app_no_sep (sep : ascii) (piece text : string) (part : string)
      (parts : list string) :
  all (λ c, negb (Ascii.eqb c sep)) piece = true →
  split sep text = part :: parts →
  split sep (piece +:+ text) = (piece +:+ part) :: parts.
Proof.
  intros Hpiece Htext. induction piece as [|c piece IH]; [done|].
  cbn [all] in Hpiece. apply andb_true_iff in Hpiece as [Hc Hpiece].
  rewrite append_cons. cbn [split]. apply negb_true_iff in Hc. rewrite Hc.
  by rewrite (IH Hpiece).
Qed.

(** The lines of a text after every newline in it got the indent
    behind it. *)
Lemma split_replace_newline (indent : string) (text : string) :
  all (λ c, negb (Ascii.eqb c newline)) indent = true →
  ∀ piece line lines,
    all (λ c, negb (Ascii.eqb c newline)) piece = true →
    split newline text = line :: lines →
    split newline (piece +:+ replace_char newline (chr newline +:+ indent) text)
    = (piece +:+ line) :: ((λ l, indent +:+ l) <$> lines).
Proof.
  intros Hindent. induction text as [|c rest IH]; intros piece line lines Hpiece.
  - cbn [split replace_char]. intros [= <- <-].
    by apply split_app_no_sep.
  - destruct (split_cons newline rest) as (l & ls & Hrest).
    cbn [split replace_char]. rewrite Hrest.
    destruct (Ascii.eqb c newline) eqn:Hc; intros [= <- <-].
    + rewrite append_assoc. apply split_app_no_sep; [done|].
      change (chr newline +:+ indent +:+ replace_char newline (chr newline +:+ indent) rest)
        with (String newline
                     (indent +:+ replace_char newline (chr newline +:+ indent) rest)).
      cbn [split]. rewrite Ascii.eqb_refl.
      by rewrite (IH indent l ls Hindent Hrest).
    + change (piece +:+ String c (replace_char newline (chr newline +:+ indent) rest))
        with (piece +:+ (chr c +:+ replace_char newline (chr newline +:+ indent) rest)).
      rewrite <- append_assoc.
      rewrite (IH (piece +:+ chr c) l ls); [by rewrite append_assoc|  |done].
      rewrite all_app, Hpiece. cbn [all chr]. by rewrite Hc.
Qed.

(** X17: with [include_first] and [include_last], the lines of the result
    are the lines of the input, each behind the indent; the indent holds no
    newline. *)
Theorem indent_string_lines (string indent : String.string) :
  all (λ c, negb (Ascii.eqb c newline)) indent = true →
  split newline (indent_string string indent true true)
  = (λ line, indent +:+ line) <$> split newline string.
Proof.
  intros Hindent. unfold indent_string. cbn [negb andb].
  destruct (split_cons newline string) as (line & lines & Hsplit).
  by rewrite (split_replace_newline indent string Hindent indent line lines Hindent Hsplit),
    Hsplit.
Qed.

Lemma indent_string_lines_witness :
  split newline (indent_string ("error: x" +:+ chr newline +:+ "y") ".   " true true)
  = (λ line, ".   " +:+ line) <$> split newline ("error: x" +:+ chr newline +:+ "y").
Proof.
  apply (indent_string_lines ("error: x" +:+ chr newline +:+ "y") ".   "). reflexivity.
Defined.

Lemma replace_char_same (c : ascii) (s : string) : replace_char c (chr c) s = s.
Proof.
  induction s as [|d s IH]; [done|]. cbn [replace_char].
  destruct (Ascii.eqb_spec d c) as [->|_]; by rewrite IH.
Qed.

(** X18: with the empty indent the text comes back unchanged, except that
    without [include_last] a text that ends in a newline comes back as the
    empty string: the slice that should cut the indent off is
    [base[:-0]]. *)
Theorem indent_string_empty_indent (string : String.string)
        (include_first include_last : bool) :
  indent_string string EmptyString include_first include_last
  = if negb include_last && endswith string (chr newline) then EmptyString else string.
Proof.
  unfold indent_string.
  change (chr newline +:+ EmptyString) with (chr newline).
  rewrite replace_char_same.
  by destruct include_first.
Qed.

End IndentString.

(** X19: [get_maybe_optional_type] never fails, the assertion of
    [get_optional_type] cannot fire through it: a union of two arms of
    which one is [None] gives its first arm, so [T] for [Union[T, None]]
    but [NoneType] for [Union[None, T]]; any other annotation comes back
    as it is. *)
Theorem get_maybe_optional_type_first_arm (type_annotation : TypeAnnotation) :
  get_maybe_optional_type type_annotation
  = Ok (match type_annotation with
        | TUnion [first; second] =>
            if is_none_type first || is_none_type second then first
            else type_annotation
        | _ => type_annotation
        end).
Proof.
  unfold get_maybe_optional_type, TypeUtils.get_optional_type,
    TypeUtils.is_optional_type.
  destruct type_annotation as [| | | | | | | | | | | | | |args| |]; try done.
  destruct args as [|first [|second [|third args]]]; try done.
  cbn [length Nat.eqb existsb andb]. rewrite orb_false_r.
  by destruct (is_none_type first || is_none_type second).
Qed.

Section SingleArgProperties.
Context {argparse : ArgParse}.
Variable shlex_split : string → Result (list string).
Variable dateparser_parse : string → Result Value.

(** X20: [parse_single_arg] never returns the sentinel [NoValue] as the
    value, unless the factory itself produced it; and an exit of
    [parse_known_args], the help exit included, never leaves it: an exit
    that comes out was raised by [shlex.split], by [add_argument] or by the
    factory. *)
Theorem parse_single_arg_outcome (args : ArgStrings) (arg_name : string)
        (arg_type : option TypeAnnotation) (default : Value)
        (factory : option (Result Value)) (short_name : option string) :
  match parse_single_arg shlex_split dateparser_parse args arg_name arg_type default
                         factory short_name with
  | Ok (value, _) => value = VNoValue → factory = Some (Ok VNoValue)
  | Raise e =>
      ∀ code out,
        e = SystemExit code out →
        (∃ s, shlex_split s = Raise e)
        ∨ (∃ parser definition, add_argument parser definition = Raise e)
        ∨ factory = Some (Raise e)
  end.
Proof.
  unfold parse_single_arg, _add_arg_to_parser.
  destruct (match args with CommandLine _ => _ | Tokens _ => _ end)
    as [tokens|e] eqn:Htokens; cbn [mbind result_bind].
  2: { intros code out _. left. destruct args; [by eexists|done]. }
  destruct (add_argument _ _) as [parser|e] eqn:Hadd; cbn [mbind result_bind].
  2: { intros code out _. right. left. by eexists _, _. }
  destruct (parse_known_args parser tokens) as [[names remaining]|e].
  2: { by destruct e. }
  destruct (names !! arg_name) as [arg_value|]; [|done].
  destruct (is_NoValue arg_value) eqn:Hvalue.
  - destruct factory as [[produced|e]|]; cbn [mbind result_bind]; try done.
    + by intros ->.
    + intros code out _. by right; right.
  - by intros ->.
Qed.

End SingleArgProperties.

Section SwitchProperties.
Context {argparse : ArgParse}.
Variable shlex_split : string → Result (list string).
Variable dateparser_parse : string → Result Value.
Import AutoArgParsingSwitch.

Lemma getitem_None (named_funcs : t) (func_str : string) :
  func_str ∉ named_funcs.*1 → getitem named_funcs func_str = None.
Proof.
  induction named_funcs as [|[name func] rest IH]; [done|].
  cbn [getitem fmap list_fmap fst]. rewrite not_elem_of_cons. intros [Hne Hrest].
  destruct (String.eqb_spec name func_str); [congruence|by apply IH].
Qed.

(** X21: the switch fails with an [AutoArgParserError] that lists the
    options, before any function is looked at, when the token list is empty
    or its first token is not the name of a function. *)
Theorem switch_unknown_function (depth : nat) (named_funcs : t) (tokens : list string) :
  (∀ func_str, head tokens = Some func_str → func_str ∉ named_funcs.*1) →
  call_from_command_line shlex_split dateparser_parse depth named_funcs (Tokens tokens)
  = Raise (match tokens with
           | [] => no_function_given named_funcs
           | func_str :: _ => no_such_function named_funcs func_str
           end).
Proof.
  intros Hunknown. destruct tokens as [|func_str rest]; [done|].
  unfold call_from_command_line. cbn [mbind result_bind].
  by rewrite (getitem_None _ _ (Hunknown func_str eq_refl)).
Qed.

(** X22: in a switch a plain callable and the parser built from it are
    interchangeable: the switch gives the same result on every command
    line. *)
Theorem switch_wraps_callables (depth : nat) (before after : t) (name : string)
        (function : Callable.t) (parser : AutoArgParser.t) (arg_strings : ArgStrings) :
  __init__ function None None None false = Ok parser →
  call_from_command_line shlex_split dateparser_parse depth
                         (before ++ (name, inr function) :: after) arg_strings
  = call_from_command_line shlex_split dateparser_parse depth
                           (before ++ (name, inl parser) :: after) arg_strings.
Proof.
  intros Hparser. unfold call_from_command_line.
  destruct (match arg_strings with CommandLine _ => _ | Tokens _ => _ end)
    as [tokens|e]; [|done]. cbn [mbind result_bind].
  destruct tokens as [|func_str rest].
  { unfold no_function_given. by rewrite !fmap_app. }
  assert (getitem (before ++ (name, inr function) :: after) func_str
          = match getitem (before ++ (name, inl parser) :: after) func_str with
            | Some (inl p) =>
                if bool_decide (getitem before func_str = None)
                   && String.eqb name func_str
                then Some (inr function) else Some (inl p)
            | other => other
            end
          ∧ (bool_decide (getitem before func_str = None) && String.eqb name func_str
             = true →
             getitem (before ++ (name, inl parser) :: after) func_str
             = Some (inl parser))) as [Hitem Hhere].
  { induction before as [|[name' func'] before IH]; cbn [app getitem].
    - rewrite bool_decide_eq_true_2 by done. cbn [andb].
      destruct (String.eqb name func_str); [done|]. split; [|done].
      by destruct (getitem after func_str) as [[?|?]|].
    - destruct (String.eqb name' func_str).
      + rewrite bool_decide_eq_false_2 by done. cbn [andb]. split; [|done].
        by destruct func'.
      + exact IH. }
  rewrite Hitem. unfold no_such_function. rewrite !fmap_app. cbn [fmap list_fmap fst].
  destruct (getitem (before ++ (name, inl parser) :: after) func_str)
    as [[p|f]|] eqn:Hfound; try done.
  destruct (_ && _) eqn:Hcond; [|done].
  specialize (Hhere eq_refl). rewrite Hparser.
  by simplify_eq.
Qed.

End SwitchProperties.

Lemma switch_unknown_function_witness :
  AutoArgParsingSwitch.call_from_command_line
    (argparse := ArgParseModel.model) Examples.split_blanks Examples.no_dates 1
    [("negate", inr Examples.maybe_negate)] (Tokens ["minus"; "4"; "5"])
  = Raise (AutoArgParsingSwitch.no_such_function
             [("negate", inr Examples.maybe_negate)] "minus").
Proof.
  apply (switch_unknown_function
           (argparse := ArgParseModel.model) Examples.split_blanks Examples.no_dates 1
           [("negate", inr Examples.maybe_negate)] ["minus"; "4"; "5"]).
  intros func_str [= <-]. cbn [fmap list_fmap fst].
  by intros [[=]|[]%elem_of_nil]%elem_of_cons.
Defined.

Lemma switch_wraps_callables_witness :
  AutoArgParsingSwitch.call_from_command_line
    (argparse := ArgParseModel.model) Examples.split_blanks Examples.no_dates 1
    ([] ++ [("negate", inr Examples.maybe_negate)]) (Tokens ["negate"; "3"; "--negate"])
  = AutoArgParsingSwitch.call_from_command_line
      (argparse := ArgParseModel.model) Examples.split_blanks Examples.no_dates 1
      ([] ++ [("negate", inl Examples.maybe_negate_parser)])
      (Tokens ["negate"; "3"; "--negate"]).
Proof.
  apply (switch_wraps_callables
           (argparse := ArgParseModel.model) Examples.split_blanks Examples.no_dates 1
           [] [] "negate" Examples.maybe_negate Examples.maybe_negate_parser).
  reflexivity.
Defined.

(** The switch of the tests: [negate 3 --negate] calls [maybe_negate]. *)
Example switch_negate :
  AutoArgParsingSwitch.call_from_command_line
    (argparse := ArgParseModel.model) Examples.split_blanks Examples.no_dates 1
    [("negate", inr Examples.maybe_negate)] (CommandLine "negate 3 --negate")
  = Ok (VInt (-3)).
Proof. by vm_compute. Qed.

Section Docstring.
Import PyStr StringUtils Spec.

(** The lines of lines joined by newlines. *)
Lemma split_join_lines (lines : list string) :
  Forall (λ line, all (λ c, negb (Ascii.eqb c newline)) line = true) lines →
  lines ≠ [] →
  split newline (join (chr newline) lines) = lines.
Proof.
  induction 1 as [|line lines Hline Hlines IH]; [done|]. intros _.
  destruct lines as [|line' lines].
  - cbn [join]. rewrite <- (append_nil_r line) at 1.
    rewrite (split_app_no_sep newline line EmptyString EmptyString [] Hline eq_refl).
    by rewrite append_nil_r.
  - change (join (chr newline) (line :: line' :: lines))
      with (line +:+ String newline (join (chr newline) (line' :: lines))).
    rewrite (split_app_no_sep newline line _ EmptyString (line' :: lines) Hline).
    + by rewrite append_nil_r.
    + cbn [split]. rewrite Ascii.eqb_refl. by rewrite IH.
Qed.

Lemma span_name_app (name rest : string) :
  all is_name_char name = true →
  span_name (name +:+ String ":" rest) = (name, String ":" rest).
Proof.
  induction name as [|c name IH]; [done|]. cbn [all].
  intros [Hc Hname]%andb_true_iff. rewrite append_cons. cbn [span_name].
  by rewrite Hc, (IH Hname).
Qed.

Lemma lstrip_blanks (n : nat) (s : string) :
  lstrip " " (blanks n +:+ s) = lstrip " " s.
Proof. induction n as [|n IH]; [done|]. cbn [blanks]. by rewrite append_cons. Qed.

Lemma prefix_app (p s : string) : String.prefix p (p +:+ s) = true.
Proof.
  induction p as [|c p IH]; [by destruct s|].
  rewrite append_cons. cbn [String.prefix]. by destruct (ascii_dec c c).
Qed.

(** The pattern on a line that documents a parameter. *)
Lemma match_param_line (indent : nat) (name text : string) :
  all is_name_char name = true →
  startswith text " " = false →
  match_argument_pattern (param_line indent name text) = Some (name, text).
Proof.
  intros Hname Htext. unfold match_argument_pattern, param_line.
  rewrite lstrip_blanks.
  change (lstrip " " (":param " +:+ name +:+ ": " +:+ text))
    with (":param " +:+ name +:+ ": " +:+ text).
  assert (startswith (":param " +:+ name +:+ ": " +:+ text) ":param " = true) as ->
    by apply prefix_app.
  change (drop 7 (":param " +:+ name +:+ ": " +:+ text))
    with (name +:+ String ":" (String " " text)).
  cbn match. rewrite (span_name_app name _ Hname).
  cbn [partition Ascii.eqb Bool.eqb lstrip mem].
  destruct text as [|c text]; [done|].
  cbn [lstrip mem]. destruct (Ascii.eqb_spec c " ") as [->|Hc]; [|done].
  exfalso. unfold startswith in Htext. cbn [String.prefix] in Htext.
  destruct (ascii_dec " " " "); [|done]. by destruct text.
Qed.

(** X23: a docstring whose lines are lines the pattern does not match
    followed by [:param <name>: <text>] lines, each indented by any number
    of blanks, is parsed into the map from the names to the texts; of two
    lines for one name the later one counts. *)
Theorem parse_docstring_param_lines (header : list string)
        (params : list (nat * string * string)) :
  Forall (λ line, match_argument_pattern line = None
                  ∧ all (λ c, negb (Ascii.eqb c newline)) line = true) header →
  Forall (λ '(indent, name, text),
            all is_name_char name = true
            ∧ all (λ c, negb (Ascii.eqb c newline)) text = true
            ∧ startswith text " " = false) params →
  parse_docstring
    (join (chr newline)
          (header ++ ((λ '(indent, name, text), param_line indent name text) <$> params)))
  = foldl (λ docs '(_, name, text), <[name := text]> docs) ∅ params.
Proof.
  intros Hheader Hparams. unfold parse_docstring.
  set (step := λ (docs : gmap string string) (line : string),
         match match_argument_pattern line with
         | Some (name, text) => <[name := text]> docs
         | None => docs
         end).
  assert (∀ docs, foldl step docs header = docs) as Hskip.
  { intros docs. induction Hheader as [|line header [Hline _] _ IH]; [done|].
    cbn [foldl]. unfold step at 2. by rewrite Hline. }
  assert (∀ docs,
             foldl step docs
                   ((λ '(indent, name, text), param_line indent name text) <$> params)
             = foldl (λ docs '(_, name, text), <[name := text]> docs) docs params)
    as Hstore.
  { induction Hparams as [|[[indent name] text] params (Hname & _ & Htext) _ IH];
      intros docs; [done|].
    cbn [fmap list_fmap foldl]. unfold step at 2.
    rewrite (match_param_line indent name text Hname Htext). apply IH. }
  destruct (decide (header ++ ((λ '(indent, name, text), param_line indent name text)
                               <$> params) = [])) as [Hempty|Hlines].
  { apply app_eq_nil in Hempty as [-> Hnone]. destruct params; [done|discriminate]. }
  rewrite split_join_lines; [by rewrite foldl_app, Hskip, Hstore| |done].
  apply Forall_app. split.
  - eapply Forall_impl; [exact Hheader|]. by intros line [_ ?].
  - apply Forall_fmap. eapply Forall_impl; [exact Hparams|].
    intros [[indent name] text] (Hname & Htext & _). cbn. unfold param_line.
    rewrite !all_app, Htext. rewrite andb_true_r.
    assert (all (λ c, negb (Ascii.eqb c newline)) (blanks indent) = true) as ->
      by (by induction indent).
    assert (all (λ c, negb (Ascii.eqb c newline)) name = true) as ->; [|done].
    clear -Hname. induction name as [|c name IH]; [done|]. cbn [all] in *.
    apply andb_true_iff in Hname as [Hc Hname]. rewrite (IH Hname), andb_true_r.
    destruct (Ascii.eqb_spec c newline) as [->|_]; [done|done].
Qed.

End Docstring.

Lemma parse_docstring_param_lines_witness :
  parse_docstring
    (PyStr.join (PyStr.chr StringUtils.newline)
       ([" Example function"]
          ++ ((λ '(indent, name, text), Spec.param_line indent name text)
                <$> [(4%nat, "a", "Something"); (4%nat, "b", "Somethings else")])))
  = foldl (λ docs '(_, name, text), <[name := text]> docs) ∅
          [(4%nat, "a", "Something"); (4%nat, "b", "Somethings else")].
Proof.
  apply (parse_docstring_param_lines [" Example function"]
           [(4%nat, "a", "Something"); (4%nat, "b", "Somethings else")]).
  - by repeat constructor.
  - by repeat constructor.
Defined.
